(** * cb-event-forwarder: the bundled output stage ([bundled_output.go])

    A shallow embedding of [BundledOutput]: the orchestrator that buffers
    records in a live file, rolls the file over by size, by age or on SIGHUP,
    hands rolled files to uploader goroutines and requeues failed uploads.

    Go values are modelled as follows.
    - [int64] fields are [Z] with the two's complement wrap-around written
      out ([Int64.wrap]); [len(s)] is the number of bytes of [s].
    - a Go [string] is a Rocq [string] (a sequence of bytes).
    - an [error] is its [Error()] text; a nil error is [None].
    - [time.Time] is an instant in nanoseconds, [time.Duration] an [int64]
      number of nanoseconds; [Time.Sub] saturates as in the Go library.
    - everything the orchestrator does not own (the file system, the clock,
      the [FileOutput] sink writer, the [BundleBehavior] backend) is reached
      through an interface over an abstract [World]; every call the code
      makes on it is also recorded, in order, in a trace of [Effect]s.
    - a method call through a nil [behavior] or a nil [tempFileOutput]
      panics. *)

From Stdlib Require Import ZArith List String Ascii Bool Lia.
Import ListNotations.

Local Open Scope string_scope.
Local Open Scope list_scope.
Local Open Scope Z_scope.

(** ** Machine integers *)

Module Int64.

Definition min : Z := - 2 ^ 63.
Definition max : Z := 2 ^ 63 - 1.

Definition wrap (z : Z) : Z := (z + 2 ^ 63) mod 2 ^ 64 - 2 ^ 63.

Definition add (a b : Z) : Z := wrap (a + b).

Definition in_range (z : Z) : Prop := min <= z <= max.

End Int64.

(** [int64(len(s))] *)
Definition len (s : string) : Z := Int64.wrap (Z.of_nat (String.length s)).

(** ** Package [strings] and [time] *)

Fixpoint drop (n : nat) (s : string) : string :=
  match n, s with
  | O, _ => s
  | S _, EmptyString => EmptyString
  | S n', String _ s' => drop n' s'
  end.

Definition strings_HasPrefix (s prefix : string) : bool := String.prefix prefix s.

Definition strings_TrimPrefix (s prefix : string) : string :=
  if strings_HasPrefix s prefix then drop (String.length prefix) s else s.

(** First occurrence of [sep] in [s]: the text before it and the text after it. *)
Fixpoint cut (sep s : string) : option (string * string) :=
  if String.prefix sep s then Some (EmptyString, drop (String.length sep) s)
  else match s with
       | EmptyString => None
       | String c s' =>
           match cut sep s' with
           | Some (before, after) => Some (String c before, after)
           | None => None
           end
       end.

(** [strings.SplitN(s, sep, n)] for a non-empty [sep] and [n = S k]: at most
    [k] cuts, the last element is the unsplit remainder. *)
Fixpoint splitN_go (k : nat) (s sep : string) : list string :=
  match k with
  | O => [s]
  | S k' =>
      match cut sep s with
      | Some (before, after) => before :: splitN_go k' after sep
      | None => [s]
      end
  end.

Definition strings_SplitN (s sep : string) (n : nat) : list string :=
  match n with
  | O => []
  | S k => splitN_go k s sep
  end.

(** Whether the byte [c] occurs in [s]. *)
Fixpoint has_byte (c : ascii) (s : string) : bool :=
  match s with
  | EmptyString => false
  | String c' s' => Ascii.eqb c' c || has_byte c s'
  end.

Definition Time := Z.
Definition Duration := Z.

Definition time_Second : Duration := 1000000000.
Definition time_Minute : Duration := 60 * time_Second.

(** [t.Sub(u)]: the difference, saturated to the range of [Duration]. *)
Definition Time_Sub (t u : Time) : Duration :=
  Z.max Int64.min (Z.min Int64.max (t - u)).

(** ** Errors, upload outcomes, directory entries *)

Record error := mkError { Error : string }.

(** A Go pair [(value, err)] of a call that yields no value when it fails. *)
Inductive fallible (A : Type) :=
| Ok (a : A)
| Err (e : error).
Arguments Ok {A} a.
Arguments Err {A} e.

Record UploadStatus := mkUploadStatus {
  fileName : string;
  result : option error
}.

(** [os.FileMode]: the type bits of package [io/fs]. *)
Definition ModeDir : Z := Z.shiftl 1 31.
Definition ModeSymlink : Z := Z.shiftl 1 27.
Definition ModeDevice : Z := Z.shiftl 1 26.
Definition ModeNamedPipe : Z := Z.shiftl 1 25.
Definition ModeSocket : Z := Z.shiftl 1 24.
Definition ModeCharDevice : Z := Z.shiftl 1 21.
Definition ModeIrregular : Z := Z.shiftl 1 19.
Definition ModeType : Z :=
  Z.lor ModeDir (Z.lor ModeSymlink (Z.lor ModeNamedPipe
    (Z.lor ModeSocket (Z.lor ModeDevice (Z.lor ModeCharDevice ModeIrregular))))).

Record FileInfo := mkFileInfo {
  Name : string;
  Mode : Z
}.

Definition IsDir (info : FileInfo) : bool :=
  negb (Z.land (Mode info) ModeDir =? 0).

Definition IsRegular (info : FileInfo) : bool :=
  Z.land (Mode info) ModeType =? 0.

(** ** The orchestrator and its collaborators *)

Section Orchestrator.

(** [World] is the state outside the orchestrator (file system, clock,
    backend), [FileOutput] the state of the sink writer object, [File] an
    open [*os.File]. *)
Context {World FileOutput File : Type}.

(** The [BundleBehavior] interface: the method table of a backend. *)
Record BundleBehavior := mkBundleBehavior {
  UploadBehavior : string -> option File -> World -> UploadStatus * World;
  Behavior_Initialize : string -> World -> option error * World;
  Behavior_Key : World -> string;
  Behavior_String : World -> string
}.

(** What [bundled_output.go] calls outside itself: packages [os],
    [path/filepath] and [time], and the methods and the one field of
    [FileOutput] it uses ([file_output.go]). *)
Class Runtime := mkRuntime {
  os_OpenFile : string -> World -> fallible File * World;
  File_Close : option File -> World -> World;
  os_Remove : string -> World -> option error * World;
  os_Open : string -> World -> fallible File * World;
  File_Readdir : File -> World -> (list FileInfo * option error) * World;
  os_MkdirAll : string -> World -> option error * World;
  filepath_Join : string -> string -> string;
  time_Now : World -> Time * World;
  FileOutput_zero : FileOutput;
  FileOutput_Initialize :
    string -> FileOutput -> World -> option error * (FileOutput * World);
  FileOutput_output :
    string -> FileOutput -> World -> option error * (FileOutput * World);
  FileOutput_rollOverFile :
    string -> FileOutput -> World -> (string * option error) * (FileOutput * World);
  FileOutput_close : FileOutput -> World -> unit * (FileOutput * World);
  lastRolledOver : FileOutput -> Time
}.

Context {rt : Runtime}.

(** The struct; [fileResultChan] and the embedded mutex carry no data of
    their own: sends on the channel appear in the trace. *)
Record BundledOutput := mkBundledOutput {
  behavior : option BundleBehavior;
  tempFileDirectory : string;
  tempFileOutput : option FileOutput;
  rollOverDuration : Duration;
  currentFileSize : Z;
  maxFileSize : Z;
  lastUploadError : string;
  lastUploadErrorTime : Time;
  uploadErrors : Z;
  successfulUploads : Z;
  filesToUpload : list string
}.

(** The zero [time.Time]: January 1 of year 1, before the Unix epoch. *)
Definition zero_Time : Time := - 62135596800 * time_Second.

(** [&BundledOutput{behavior: b}] *)
Definition new_BundledOutput (b : option BundleBehavior) : BundledOutput :=
  {| behavior := b; tempFileDirectory := ""; tempFileOutput := None;
     rollOverDuration := 0; currentFileSize := 0; maxFileSize := 0;
     lastUploadError := ""; lastUploadErrorTime := zero_Time;
     uploadErrors := 0; successfulUploads := 0; filesToUpload := [] |}.

Definition set_tempFileDirectory (v : string) (o : BundledOutput) :=
  {| behavior := behavior o; tempFileDirectory := v;
     tempFileOutput := tempFileOutput o; rollOverDuration := rollOverDuration o;
     currentFileSize := currentFileSize o; maxFileSize := maxFileSize o;
     lastUploadError := lastUploadError o;
     lastUploadErrorTime := lastUploadErrorTime o;
     uploadErrors := uploadErrors o; successfulUploads := successfulUploads o;
     filesToUpload := filesToUpload o |}.

Definition set_tempFileOutput (v : option FileOutput) (o : BundledOutput) :=
  {| behavior := behavior o; tempFileDirectory := tempFileDirectory o;
     tempFileOutput := v; rollOverDuration := rollOverDuration o;
     currentFileSize := currentFileSize o; maxFileSize := maxFileSize o;
     lastUploadError := lastUploadError o;
     lastUploadErrorTime := lastUploadErrorTime o;
     uploadErrors := uploadErrors o; successfulUploads := successfulUploads o;
     filesToUpload := filesToUpload o |}.

Definition set_rollOverDuration (v : Duration) (o : BundledOutput) :=
  {| behavior := behavior o; tempFileDirectory := tempFileDirectory o;
     tempFileOutput := tempFileOutput o; rollOverDuration := v;
     currentFileSize := currentFileSize o; maxFileSize := maxFileSize o;
     lastUploadError := lastUploadError o;
     lastUploadErrorTime := lastUploadErrorTime o;
     uploadErrors := uploadErrors o; successfulUploads := successfulUploads o;
     filesToUpload := filesToUpload o |}.

Definition set_currentFileSize (v : Z) (o : BundledOutput) :=
  {| behavior := behavior o; tempFileDirectory := tempFileDirectory o;
     tempFileOutput := tempFileOutput o; rollOverDuration := rollOverDuration o;
     currentFileSize := v; maxFileSize := maxFileSize o;
     lastUploadError := lastUploadError o;
     lastUploadErrorTime := lastUploadErrorTime o;
     uploadErrors := uploadErrors o; successfulUploads := successfulUploads o;
     filesToUpload := filesToUpload o |}.

Definition set_maxFileSize (v : Z) (o : BundledOutput) :=
  {| behavior := behavior o; tempFileDirectory := tempFileDirectory o;
     tempFileOutput := tempFileOutput o; rollOverDuration := rollOverDuration o;
     currentFileSize := currentFileSize o; maxFileSize := v;
     lastUploadError := lastUploadError o;
     lastUploadErrorTime := lastUploadErrorTime o;
     uploadErrors := uploadErrors o; successfulUploads := successfulUploads o;
     filesToUpload := filesToUpload o |}.

Definition set_lastUploadError (v : string) (o : BundledOutput) :=
  {| behavior := behavior o; tempFileDirectory := tempFileDirectory o;
     tempFileOutput := tempFileOutput o; rollOverDuration := rollOverDuration o;
     currentFileSize := currentFileSize o; maxFileSize := maxFileSize o;
     lastUploadError := v;
     lastUploadErrorTime := lastUploadErrorTime o;
     uploadErrors := uploadErrors o; successfulUploads := successfulUploads o;
     filesToUpload := filesToUpload o |}.

Definition set_lastUploadErrorTime (v : Time) (o : BundledOutput) :=
  {| behavior := behavior o; tempFileDirectory := tempFileDirectory o;
     tempFileOutput := tempFileOutput o; rollOverDuration := rollOverDuration o;
     currentFileSize := currentFileSize o; maxFileSize := maxFileSize o;
     lastUploadError := lastUploadError o;
     lastUploadErrorTime := v;
     uploadErrors := uploadErrors o; successfulUploads := successfulUploads o;
     filesToUpload := filesToUpload o |}.

Definition set_uploadErrors (v : Z) (o : BundledOutput) :=
  {| behavior := behavior o; tempFileDirectory := tempFileDirectory o;
     tempFileOutput := tempFileOutput o; rollOverDuration := rollOverDuration o;
     currentFileSize := currentFileSize o; maxFileSize := maxFileSize o;
     lastUploadError := lastUploadError o;
     lastUploadErrorTime := lastUploadErrorTime o;
     uploadErrors := v; successfulUploads := successfulUploads o;
     filesToUpload := filesToUpload o |}.

Definition set_successfulUploads (v : Z) (o : BundledOutput) :=
  {| behavior := behavior o; tempFileDirectory := tempFileDirectory o;
     tempFileOutput := tempFileOutput o; rollOverDuration := rollOverDuration o;
     currentFileSize := currentFileSize o; maxFileSize := maxFileSize o;
     lastUploadError := lastUploadError o;
     lastUploadErrorTime := lastUploadErrorTime o;
     uploadErrors := uploadErrors o; successfulUploads := v;
     filesToUpload := filesToUpload o |}.

Definition set_filesToUpload (v : list string) (o : BundledOutput) :=
  {| behavior := behavior o; tempFileDirectory := tempFileDirectory o;
     tempFileOutput := tempFileOutput o; rollOverDuration := rollOverDuration o;
     currentFileSize := currentFileSize o; maxFileSize := maxFileSize o;
     lastUploadError := lastUploadError o;
     lastUploadErrorTime := lastUploadErrorTime o;
     uploadErrors := uploadErrors o; successfulUploads := successfulUploads o;
     filesToUpload := v |}.

(** ** Effects and the machine *)

(** The calls the code makes outside itself, as they appear in the trace. *)
Inductive Effect :=
| Call_os_OpenFile (name : string)
| Call_UploadBehavior (name : string) (fp : option File)
| Call_File_Close (fp : option File)
| Call_os_Remove (name : string)
| Call_os_Open (name : string)
| Call_File_Readdir
| Call_Behavior_Initialize (connString : string)
| Call_Behavior_String
| Call_os_MkdirAll (path : string)
| Call_time_Now
| Call_FileOutput_Initialize (path : string)
| Call_FileOutput_output (message : string)
| Call_FileOutput_rollOverFile (layout : string)
| Call_FileOutput_close
| Call_signal_Stop                        (* signal.Stop(hup) *)
| Call_Ticker_Stop                        (* refreshTicker.Stop() *)
| Go_uploadOne (fn : string)              (* go o.uploadOne(fn) *)
| Send_fileResultChan (status : UploadStatus)
| Send_errorChan (err : error)
| Log_Printf (line : string).

Record Machine := mkMachine {
  this : BundledOutput;
  world : World;
  trace : list Effect
}.

Inductive Outcome (A : Type) :=
| Returns (a : A) (m : Machine)
| Panics (m : Machine).
Arguments Returns {A} a m.
Arguments Panics {A} m.

Definition M (A : Type) : Type := Machine -> Outcome A.

Definition ret {A} (a : A) : M A := fun m => Returns a m.

Definition bind {A B} (c : M A) (k : A -> M B) : M B :=
  fun m => match c m with
           | Returns a m' => k a m'
           | Panics m' => Panics m'
           end.

Notation "x <- c ;; k" := (bind c (fun x => k))
  (at level 61, c at next level, right associativity).
Notation "c ;; k" := (bind c (fun _ => k))
  (at level 61, right associativity).

Definition panic {A} : M A := fun m => Panics m.

Definition get_this : M BundledOutput := fun m => Returns (this m) m.

Definition modify (f : BundledOutput -> BundledOutput) : M unit :=
  fun m => Returns tt {| this := f (this m); world := world m; trace := trace m |}.

Definition emit (e : Effect) : M unit :=
  fun m => Returns tt {| this := this m; world := world m; trace := trace m ++ [e] |}.

(** A call on the world, recorded in the trace. *)
Definition call {A} (e : Effect) (f : World -> A * World) : M A :=
  fun m => let (a, w) := f (world m) in
           Returns a {| this := this m; world := w; trace := trace m ++ [e] |}.

(** A method call on [o.tempFileOutput]. *)
Definition sink {A} (e : Effect)
    (f : FileOutput -> World -> A * (FileOutput * World)) : M A :=
  fun m => match tempFileOutput (this m) with
           | None => Panics m
           | Some fo =>
               let '(a, (fo', w)) := f fo (world m) in
               Returns a {| this := set_tempFileOutput (Some fo') (this m);
                            world := w; trace := trace m ++ [e] |}
           end.

(** The paths of the uploader goroutines started, in order. *)
Fixpoint spawned (t : list Effect) : list string :=
  match t with
  | [] => []
  | Go_uploadOne fn :: t' => fn :: spawned t'
  | _ :: t' => spawned t'
  end.

(** The outcomes sent on [fileResultChan], in order. *)
Fixpoint reported (t : list Effect) : list UploadStatus :=
  match t with
  | [] => []
  | Send_fileResultChan st :: t' => st :: reported t'
  | _ :: t' => reported t'
  end.

Definition is_UploadBehavior (e : Effect) : bool :=
  match e with Call_UploadBehavior _ _ => true | _ => false end.

Definition is_rollOverFile (e : Effect) : bool :=
  match e with Call_FileOutput_rollOverFile _ => true | _ => false end.

Definition is_Behavior_Initialize (e : Effect) : bool :=
  match e with Call_Behavior_Initialize _ => true | _ => false end.

(** ** The methods of [BundledOutput] *)

Definition uploadOne (fileName : string) : M unit :=
  r <- call (Call_os_OpenFile fileName) (os_OpenFile fileName) ;;
  let fp := match r with Ok f => Some f | Err _ => None end in
  match r with
  | Err err => emit (Send_fileResultChan (mkUploadStatus fileName (Some err)))
  | Ok _ => ret tt
  end ;;
  o <- get_this ;;
  match behavior o with
  | None => panic
  | Some b =>
      uploadStatus <- call (Call_UploadBehavior fileName fp)
                           (UploadBehavior b fileName fp) ;;
      let err := result uploadStatus in
      emit (Send_fileResultChan uploadStatus) ;;
      call (Call_File_Close fp) (fun w => (tt, File_Close fp w)) ;;
      match err with
      | None =>
          (* only remove the old file if there was no error *)
          err <- call (Call_os_Remove fileName) (os_Remove fileName) ;;
          match err with
          | Some e =>
              emit (Log_Printf ("error removing " ++ fileName ++ ": " ++ Error e)%string)
          | None => ret tt
          end
      | Some _ => ret tt
      end
  end.

(** The body of the [for _, info := range infos] loop. *)
Definition queue_info (dir : string) (info : FileInfo) (queue : list string)
  : list string :=
  if IsDir info then queue
  else
    let fn := Name info in
    if negb (strings_HasPrefix fn "event-forwarder") then queue
    else if (0 <? Z.of_nat (String.length (strings_TrimPrefix fn "event-forwarder")))
         then queue ++ [filepath_Join dir fn]
         else queue.

Definition queueStragglers : M unit :=
  o <- get_this ;;
  r <- call (Call_os_Open (tempFileDirectory o)) (os_Open (tempFileDirectory o)) ;;
  match r with
  | Err _ => ret tt
  | Ok fp =>
      r <- call Call_File_Readdir (File_Readdir fp) ;;
      match r with
      | (_, Some _) => ret tt
      | (infos, None) =>
          modify (fun o =>
            set_filesToUpload
              (fold_left (fun q info => queue_info (tempFileDirectory o) info q)
                         infos (filesToUpload o)) o)
      end
  end.

Definition Initialize (connString : string) : M (option error) :=
  modify (set_filesToUpload []) ;;
  (* maximum file size before we trigger an upload is ~10MB. *)
  modify (set_maxFileSize (10 * 1024 * 1024)) ;;
  (* roll over duration defaults to five minutes *)
  modify (set_rollOverDuration (5 * time_Minute)) ;;
  let parts := strings_SplitN connString ":" 2 in
  (if (1 <? Z.of_nat (List.length parts))
   then modify (set_tempFileDirectory (nth 0 parts ""))
   else modify (set_tempFileDirectory "/var/cb/data/event-forwarder")) ;;
  o <- get_this ;;
  match behavior o with
  | None =>
      ret (Some (mkError "BundledOutput Initialize called without a behavior"))
  | Some b =>
      err <- call (Call_Behavior_Initialize connString)
                  (Behavior_Initialize b connString) ;;
      match err with
      | Some e => ret (Some e)
      | None =>
          err <- call (Call_os_MkdirAll (tempFileDirectory o))
                      (os_MkdirAll (tempFileDirectory o)) ;;
          match err with
          | Some e => ret (Some e)
          | None =>
              let currentPath :=
                filepath_Join (tempFileDirectory o) "event-forwarder" in
              modify (set_tempFileOutput (Some FileOutput_zero)) ;;
              err <- sink (Call_FileOutput_Initialize currentPath)
                          (FileOutput_Initialize currentPath) ;;
              (* find files in the output directory that haven't been
                 uploaded yet and add them to the list; errors are ignored *)
              queueStragglers ;;
              ret err
          end
      end
  end.

Definition rollOver : M (option error) :=
  r <- sink (Call_FileOutput_rollOverFile "2006-01-02T15:04:05")
            (FileOutput_rollOverFile "2006-01-02T15:04:05") ;;
  match r with
  | (_, Some err) => ret (Some err)
  | (fn, None) =>
      emit (Go_uploadOne fn) ;;
      modify (set_currentFileSize 0) ;;
      ret None
  end.

Definition output (message : string) : M (option error) :=
  o <- get_this ;;
  err <- (if Int64.add (currentFileSize o) (len message) >? maxFileSize o
          then rollOver
          else ret None) ;;
  match err with
  | Some e => ret (Some e)
  | None =>
      (* first try to write the message to our output file *)
      modify (fun o =>
        set_currentFileSize (Int64.add (currentFileSize o) (len message)) o) ;;
      sink (Call_FileOutput_output message) (FileOutput_output message)
  end.

Definition Key : M string :=
  o <- get_this ;;
  match behavior o with
  | None => panic
  | Some b =>
      fun m =>
        Returns (Behavior_Key b (world m) ++ ":" ++ tempFileDirectory o)%string m
  end.

(** ** The event loop of [Go] *)

(** What the [select] of the loop can receive. *)
Inductive Event :=
| Recv_messages (message : string)
| Recv_refreshTicker
| Recv_fileResultChan (fileResult : UploadStatus)
| Recv_hup.

Inductive Loop := Continue | Return.

(** One iteration of the [for { select { ... } }] loop. *)
Definition Go_select (ev : Event) : M Loop :=
  match ev with
  | Recv_messages message =>
      err <- output message ;;
      match err with
      | Some e => emit (Send_errorChan e) ;; ret Return
      | None => ret Continue
      end
  | Recv_refreshTicker =>
      now <- call Call_time_Now time_Now ;;
      o <- get_this ;;
      match tempFileOutput o with
      | None => panic
      | Some fo =>
          err <- (if Time_Sub now (lastRolledOver fo) >? rollOverDuration o
                  then rollOver
                  else ret None) ;;
          match err with
          | Some e => emit (Send_errorChan e) ;; ret Return
          | None =>
              o <- get_this ;;
              match filesToUpload o with
              | fn :: rest =>
                  modify (set_filesToUpload rest) ;;
                  emit (Go_uploadOne fn)
              | [] => ret tt
              end ;;
              ret Continue
          end
      end
  | Recv_fileResultChan fileResult =>
      match result fileResult with
      | Some e =>
          modify (fun o => set_uploadErrors (Int64.add (uploadErrors o) 1) o) ;;
          modify (set_lastUploadError (Error e)) ;;
          now <- call Call_time_Now time_Now ;;
          modify (set_lastUploadErrorTime now) ;;
          modify (fun o =>
            set_filesToUpload (filesToUpload o ++ [fileName fileResult]) o) ;;
          emit (Log_Printf ("Error uploading file " ++ fileName fileResult
                            ++ ": " ++ Error e)%string) ;;
          ret Continue
      | None =>
          modify (fun o =>
            set_successfulUploads (Int64.add (successfulUploads o) 1) o) ;;
          emit (Log_Printf ("Successfully uploaded file "
                            ++ fileName fileResult ++ ".")%string) ;;
          ret Continue
      end
  | Recv_hup =>
      (* flush to S3 immediately *)
      o <- get_this ;;
      match behavior o with
      | None => panic
      | Some b =>
          s <- call Call_Behavior_String (fun w => (Behavior_String b w, w)) ;;
          emit (Log_Printf ("Received SIGHUP, sending data to " ++ s
                            ++ " immediately.")%string) ;;
          err <- rollOver ;;
          match err with
          | Some e => emit (Send_errorChan e) ;; ret Return
          | None => ret Continue
          end
      end
  end.

(** The calls deferred in the goroutine of [Go], run when the loop returns,
    the last registered first: [signal.Stop(hup)],
    [o.tempFileOutput.close()], [refreshTicker.Stop()]. *)
Definition deferred : M Loop :=
  emit Call_signal_Stop ;;
  sink Call_FileOutput_close FileOutput_close ;;
  emit Call_Ticker_Stop ;;
  ret Return.

(** The goroutine started by [Go], fed the events its [select] receives;
    when the loop returns, the deferred calls run. The result tells whether
    the loop is still waiting for events. *)
Fixpoint Go_loop (events : list Event) : M Loop :=
  match events with
  | [] => ret Continue
  | ev :: events' =>
      l <- Go_select ev ;;
      match l with
      | Continue => Go_loop events'
      | Return => deferred
      end
  end.

(** ** Observing a run *)

(** The machine a computation stops in, whether it returns or panics. *)
Definition final {A} (r : Outcome A) : Machine :=
  match r with
  | Returns _ m => m
  | Panics m => m
  end.

(** What a computation started in [m] adds to the trace. *)
Definition effects {A} (c : M A) (m : Machine) : list Effect :=
  skipn (List.length (trace m)) (trace (final (c m))).

(** Whether a tick at [now] finds the live file older than
    [rollOverDuration]. *)
Definition due (o : BundledOutput) (fo : FileOutput) (now : Time) : bool :=
  Time_Sub now (lastRolledOver fo) >? rollOverDuration o.

(** The directory [Initialize] takes from a connection string. *)
Definition buffer_directory (connString : string) : string :=
  let parts := strings_SplitN connString ":" 2 in
  if (1 <? Z.of_nat (List.length parts)) then nth 0 parts ""
  else "/var/cb/data/event-forwarder".

(** The number of bytes of a sequence of messages. *)
Definition total_len (msgs : list string) : Z :=
  fold_right (fun s n => Z.of_nat (String.length s) + n) 0 msgs.

(** The entries [queueStragglers] takes: not a directory, named with the
    base-file prefix and something after it. *)
Definition qualifies (info : FileInfo) : bool :=
  negb (IsDir info)
  && strings_HasPrefix (Name info) "event-forwarder"
  && (String.length "event-forwarder" <? String.length (Name info))%nat.

(** The paths [queueStragglers] appends for a listing of [dir]. *)
Definition stragglers (dir : string) (infos : list FileInfo) : list string :=
  map (fun info => filepath_Join dir (Name info)) (filter qualifies infos).

(** The fields [Initialize] sets before it calls anything. *)
Definition defaults (connString : string) (o : BundledOutput) : BundledOutput :=
  set_tempFileDirectory (buffer_directory connString)
    (set_rollOverDuration (5 * time_Minute)
       (set_maxFileSize (10 * 1024 * 1024) (set_filesToUpload [] o))).

(** What the scan finds in the world: the listing of the buffer directory,
    or nothing when the directory cannot be opened or listed. *)
Definition listing (dir : string) (w : World) : list FileInfo :=
  match os_Open dir w with
  | (Ok fp, w1) =>
      match File_Readdir fp w1 with
      | ((infos, None), _) => infos
      | ((_, Some _), _) => []
      end
  | (Err _, _) => []
  end.

(** The same test with "is a regular file" in place of "is not a directory". *)
Definition qualifies_regular (info : FileInfo) : bool :=
  IsRegular info
  && strings_HasPrefix (Name info) "event-forwarder"
  && (String.length "event-forwarder" <? String.length (Name info))%nat.

End Orchestrator.

Arguments BundleBehavior : clear implicits.
Arguments Runtime : clear implicits.
Arguments BundledOutput : clear implicits.
Arguments Machine : clear implicits.
Arguments Effect : clear implicits.
Arguments Returns {World FileOutput File A} a m.
Arguments Panics {World FileOutput File A} m.
Arguments Int64.wrap : simpl never.
Arguments Int64.add : simpl never.
Arguments len : simpl never.
Arguments Time_Sub : simpl never.

Notation "x <- c ;; k" := (bind c (fun x => k))
  (at level 61, c at next level, right associativity).
Notation "c ;; k" := (bind c (fun _ => k))
  (at level 61, right associativity).

(** ** [String] and [Statistics] *)

Section Reporting.

Context {World FileOutput File : Type} {rt : Runtime World FileOutput File}.

Abbreviation Method := (@M World FileOutput File).

(** [String()]: [fmt.Sprintf("%s %s", o.behavior.String(), o.Key())]. *)
Definition String_ : Method string :=
  o <- get_this ;;
  match behavior o with
  | None => panic
  | Some b =>
      s <- (fun m => Returns (Behavior_String b (world m)) m) ;;
      k <- Key ;;
      ret (s ++ " " ++ k)%string
  end.

(** The two nested snapshots are opaque ([interface{}]): what
    [FileOutput.Statistics()] and the backend's [Statistics()] return. *)
Context {Snapshot : Type}.
Variable FileOutput_Statistics : FileOutput -> World -> Snapshot.
Variable Behavior_Statistics : BundleBehavior World File -> World -> Snapshot.

Record BundleStatistics := mkBundleStatistics {
  FilesUploaded : Z;
  UploadErrors : Z;
  LastErrorTime : Time;
  LastErrorText : string;
  HoldingArea : Snapshot;
  StorageStatistics : Snapshot
}.

Definition Statistics : Method BundleStatistics :=
  o <- get_this ;;
  match tempFileOutput o with
  | None => panic
  | Some fo =>
      match behavior o with
      | None => panic
      | Some b =>
          fun m =>
            Returns {| FilesUploaded := successfulUploads o;
                       LastErrorTime := lastUploadErrorTime o;
                       LastErrorText := lastUploadError o;
                       UploadErrors := uploadErrors o;
                       HoldingArea := FileOutput_Statistics fo (world m);
                       StorageStatistics := Behavior_Statistics b (world m) |} m
      end
  end.

(** *** Observations on runs of the loop *)

(** The orchestrator as [Initialize] leaves it when it succeeds: a backend
    is configured and the sink writer object is allocated. *)
Definition initialised (o : BundledOutput World FileOutput File) : Prop :=
  behavior o <> None /\ tempFileOutput o <> None.

Definition is_Send_errorChan (e : Effect File) : bool :=
  match e with Send_errorChan _ => true | _ => false end.

Definition is_close (e : Effect File) : bool :=
  match e with Call_FileOutput_close => true | _ => false end.

Definition is_os_Remove (e : Effect File) : bool :=
  match e with Call_os_Remove _ => true | _ => false end.

Definition is_File_Close (e : Effect File) : bool :=
  match e with Call_File_Close _ => true | _ => false end.

(** The queue after one event, when the loop goes on: a tick takes the
    front, a failed outcome puts its path at the back. *)
Definition queue_after (ev : Event) (q : list string) : list string :=
  match ev with
  | Recv_refreshTicker => tl q
  | Recv_fileResultChan r =>
      match result r with
      | Some _ => q ++ [fileName r]
      | None => q
      end
  | _ => q
  end.

Definition queue_run (evs : list Event) (q : list string) : list string :=
  fold_left (fun q ev => queue_after ev q) evs q.

(** The paths the events take from the queue for upload, in order. *)
Fixpoint dispatched_run (evs : list Event) (q : list string) : list string :=
  match evs with
  | [] => []
  | ev :: evs' =>
      match ev with
      | Recv_refreshTicker => firstn 1 q
      | _ => []
      end ++ dispatched_run evs' (queue_after ev q)
  end.

(** The upload outcomes among the events, failed and successful. *)
Fixpoint failures (evs : list Event) : Z :=
  match evs with
  | [] => 0
  | Recv_fileResultChan r :: evs' =>
      match result r with
      | Some _ => 1 + failures evs'
      | None => failures evs'
      end
  | _ :: evs' => failures evs'
  end.

Fixpoint successes (evs : list Event) : Z :=
  match evs with
  | [] => 0
  | Recv_fileResultChan r :: evs' =>
      match result r with
      | Some _ => successes evs'
      | None => 1 + successes evs'
      end
  | _ :: evs' => successes evs'
  end.

(** The error of the last failed outcome among the events. *)
Fixpoint last_failure (evs : list Event) (before : option error) : option error :=
  match evs with
  | [] => before
  | Recv_fileResultChan r :: evs' =>
      match result r with
      | Some e => last_failure evs' (Some e)
      | None => last_failure evs' before
      end
  | _ :: evs' => last_failure evs' before
  end.

(** The text of the last error after the events, [before] if none failed. *)
Definition last_text (evs : list Event) (before : string) : string :=
  match last_failure evs None with
  | Some e => Error e
  | None => before
  end.

(** Whether every message among the events has at most [n] bytes. *)
Fixpoint messages_within (n : Z) (evs : list Event) : Prop :=
  match evs with
  | [] => True
  | Recv_messages message :: evs' =>
      Z.of_nat (String.length message) <= n /\ messages_within n evs'
  | _ :: evs' => messages_within n evs'
  end.

End Reporting.

(** ** A small concrete world

    An in-memory file system with one clock, a backend that records what it
    is given, and a sink writer; used to run the orchestrator on concrete
    scenarios. *)

Module Sim.

Record World := mkWorld {
  fs : list (string * (Z * string));   (* path, mode and content, in directory order *)
  dirs : list string;                  (* the directories that exist *)
  clock : Time;
  upload_fails : bool;                 (* whether the backend refuses uploads *)
  backend_conn : option string;        (* what the backend was initialised with *)
  remote : list (string * string)      (* what the backend has stored *)
}.

Definition set_fs (v : list (string * (Z * string))) (w : World) : World :=
  {| fs := v; dirs := dirs w; clock := clock w; upload_fails := upload_fails w;
     backend_conn := backend_conn w; remote := remote w |}.

Definition File := string.

Fixpoint lookup {A} (k : string) (l : list (string * A)) : option A :=
  match l with
  | [] => None
  | (k', v) :: l' => if String.eqb k k' then Some v else lookup k l'
  end.

Fixpoint remove {A} (k : string) (l : list (string * A)) : list (string * A) :=
  match l with
  | [] => []
  | (k', v) :: l' => if String.eqb k k' then l' else (k', v) :: remove k l'
  end.

(** *** [filepath.Join] on Unix: join with [/], then [Clean]. *)

Fixpoint elements (s cur : string) : list string :=
  match s with
  | EmptyString => [cur]
  | String c s' =>
      if Ascii.eqb c "/"%char then cur :: elements s' EmptyString
      else elements s' (cur ++ String c EmptyString)%string
  end.

(** [stack] holds the elements kept so far, the last one first. *)
Fixpoint clean_elements (rooted : bool) (stack : list string) (el : list string)
  : list string :=
  match el with
  | [] => rev stack
  | e :: el' =>
      if String.eqb e "" || String.eqb e "." then clean_elements rooted stack el'
      else if String.eqb e ".." then
        match stack with
        | top :: stack' =>
            if String.eqb top ".." then clean_elements rooted (e :: stack) el'
            else clean_elements rooted stack' el'
        | [] =>
            if rooted then clean_elements rooted stack el'
            else clean_elements rooted (e :: stack) el'
        end
      else clean_elements rooted (e :: stack) el'
  end.

Definition Clean (path : string) : string :=
  let rooted := String.prefix "/" path in
  let out := String.concat "/" (clean_elements rooted [] (elements path "")) in
  let out := if rooted then ("/" ++ out)%string else out in
  if String.eqb out "" then "." else out.

Definition Join (dir name : string) : string :=
  if negb (String.eqb dir "") then Clean (dir ++ "/" ++ name)
  else if negb (String.eqb name "") then Clean name
  else "".

(** *** Package [os] *)

Definition OpenFile (name : string) (w : World) : fallible File * World :=
  match lookup name (fs w) with
  | Some _ => (Ok name, w)
  | None => (Err (mkError ("open " ++ name ++ ": no such file or directory")), w)
  end.

Definition Remove (name : string) (w : World) : option error * World :=
  match lookup name (fs w) with
  | Some _ => (None, set_fs (remove name (fs w)) w)
  | None =>
      (Some (mkError ("remove " ++ name ++ ": no such file or directory")), w)
  end.

Definition Open (name : string) (w : World) : fallible File * World :=
  if existsb (String.eqb name) (dirs w) then (Ok name, w)
  else (Err (mkError ("open " ++ name ++ ": no such file or directory")), w).

Definition entry_of (dir : string) (e : string * (Z * string)) : list FileInfo :=
  let '(path, (mode, _)) := e in
  if String.prefix (dir ++ "/") path then
    let name := drop (String.length dir + 1) path in
    if has_byte "/" name then [] else [mkFileInfo name mode]
  else [].

Definition Readdir (fp : File) (w : World)
  : (list FileInfo * option error) * World :=
  ((flat_map (entry_of fp) (fs w), None), w).

Definition MkdirAll (path : string) (w : World) : option error * World :=
  if String.eqb path ""
  then (Some (mkError "mkdir : no such file or directory"), w)
  else if existsb (String.eqb path) (dirs w) then (None, w)
  else (None, {| fs := fs w; dirs := dirs w ++ [path]; clock := clock w;
                 upload_fails := upload_fails w;
                 backend_conn := backend_conn w; remote := remote w |}).

(** *** The backend *)

Definition Upload (name : string) (fp : option File) (w : World)
  : UploadStatus * World :=
  match fp with
  | None => (mkUploadStatus name (Some (mkError "invalid argument")), w)
  | Some f =>
      if upload_fails w
      then (mkUploadStatus name (Some (mkError "upload refused")), w)
      else
        let data := match lookup f (fs w) with Some (_, d) => d | None => "" end in
        (mkUploadStatus name None,
         {| fs := fs w; dirs := dirs w; clock := clock w;
            upload_fails := upload_fails w; backend_conn := backend_conn w;
            remote := remote w ++ [(name, data)] |})
  end.

Definition backend : BundleBehavior World File :=
  {| UploadBehavior := Upload;
     Behavior_Initialize := fun conn w =>
       (None, {| fs := fs w; dirs := dirs w; clock := clock w;
                 upload_fails := upload_fails w;
                 backend_conn := Some conn; remote := remote w |});
     Behavior_Key := fun _ => "sim";
     Behavior_String := fun _ => "sim backend" |}.

End Sim.

(** The sink writer, [FileOutput] of [file_output.go], on the in-memory file
    system. *)

Module SimSink.

Import Sim.

Record FileOutput := mkFileOutput {
  outputFileName : string;
  rolledOverAt : Time
}.

Definition zero : FileOutput :=
  {| outputFileName := ""; rolledOverAt := - 62135596800 * time_Second |}.

Fixpoint update {A} (k : string) (v : A) (l : list (string * A))
  : list (string * A) :=
  match l with
  | [] => []
  | (k', v') :: l' =>
      if String.eqb k k' then (k', v) :: l' else (k', v') :: update k v l'
  end.

(** Render a number of seconds in decimal, least significant digit last. *)
Fixpoint digits (fuel : nat) (n : Z) (acc : string) : string :=
  match fuel with
  | O => acc
  | S fuel' =>
      let d := Ascii.ascii_of_nat (48 + Z.to_nat (n mod 10)) in
      if n <? 10 then String d acc
      else digits fuel' (n / 10) (String d acc)
  end.

Definition stamp (t : Time) : string := digits 40 (Z.abs (t / time_Second)) "".

(** Modelled from the spec: [FileOutput.Initialize] is not under [src/]. The
    sink writer creates or opens the base (live) file; bytes already in it
    stay there. Opening fails when the path is a directory. *)
Definition Initialize (path : string) (fo : FileOutput) (w : World)
  : option error * (FileOutput * World) :=
  if existsb (String.eqb path) (dirs w)
  then (Some (mkError ("open " ++ path ++ ": is a directory")),
        ({| outputFileName := path; rolledOverAt := rolledOverAt fo |}, w))
  else
    let w' := match lookup path (fs w) with
              | Some _ => w
              | None => set_fs (fs w ++ [(path, (420, ""))]) w
              end in
    (None, ({| outputFileName := path; rolledOverAt := clock w |}, w')).

(** Modelled from the spec: [FileOutput.output] is not under [src/]. The sink
    writer appends the text to the live file. *)
Definition output (message : string) (fo : FileOutput) (w : World)
  : option error * (FileOutput * World) :=
  match lookup (outputFileName fo) (fs w) with
  | Some (mode, data) =>
      (None, (fo, set_fs (update (outputFileName fo)
                                 (mode, (data ++ message)%string) (fs w)) w))
  | None => (Some (mkError "write: file already closed"), (fo, w))
  end.

(** Modelled from the spec: [FileOutput.rollOverFile] is not under [src/]. The
    sink writer closes the live file, renames it to the base name followed by
    a time suffix (here the clock in seconds, whatever the layout), starts a
    fresh live file and returns the new path. *)
Definition rollOverFile (layout : string) (fo : FileOutput) (w : World)
  : (string * option error) * (FileOutput * World) :=
  match lookup (outputFileName fo) (fs w) with
  | Some (mode, data) =>
      let newName := (outputFileName fo ++ "." ++ stamp (clock w))%string in
      ((newName, None),
       ({| outputFileName := outputFileName fo; rolledOverAt := clock w |},
        set_fs (remove (outputFileName fo) (fs w)
                  ++ [(newName, (mode, data)); (outputFileName fo, (420, ""))]) w))
  | None =>
      (("", Some (mkError ("rename " ++ outputFileName fo
                           ++ ": no such file or directory"))), (fo, w))
  end.

Definition close (fo : FileOutput) (w : World) : unit * (FileOutput * World) :=
  (tt, (fo, w)).

#[global] Instance runtime : Runtime World FileOutput File :=
  {| os_OpenFile := OpenFile;
     File_Close := fun _ w => w;
     os_Remove := Remove;
     os_Open := Open;
     File_Readdir := Readdir;
     os_MkdirAll := MkdirAll;
     filepath_Join := Join;
     time_Now := fun w => (clock w, w);
     FileOutput_zero := zero;
     FileOutput_Initialize := Initialize;
     FileOutput_output := output;
     FileOutput_rollOverFile := rollOverFile;
     FileOutput_close := close;
     lastRolledOver := rolledOverAt |}.

Definition machine (o : BundledOutput World FileOutput File) (w : World)
  : Machine World FileOutput File :=
  {| this := o; world := w; trace := [] |}.

(** A freshly constructed orchestrator with the recording backend. *)
Definition fresh : BundledOutput World FileOutput File :=
  new_BundledOutput (Some backend).

End SimSink.

(** ** Concrete scenarios *)

Module Scenario.

Import Sim.

Abbreviation Machine := (Machine World SimSink.FileOutput File).

(** A buffer directory [/b] that holds the live file with [old] in it, a file
    rolled over by an earlier run, a subdirectory, a symbolic link whose name
    starts with the base name, and an unrelated file. *)
Definition restart_world (old : string) : World :=
  {| fs := [("/b/event-forwarder", (420, old));
            ("/b/event-forwarder.17", (420, "seventeen"));
            ("/b/event-forwarder.d", (Z.lor ModeDir 493, ""));
            ("/b/event-forwarder.lnk", (Z.lor ModeSymlink 511, ""));
            ("/b/notes", (420, ""))];
     dirs := ["/b"; "/b/event-forwarder.d"];
     clock := 5000 * time_Second;
     upload_fails := false; backend_conn := None; remote := [] |}.

(** An empty buffer directory [/b]. *)
Definition empty_b : World :=
  {| fs := []; dirs := ["/b"]; clock := 1000 * time_Second;
     upload_fails := false; backend_conn := None; remote := [] |}.

(** A buffer directory in which [event-forwarder] is a directory, so that the
    sink writer cannot open it, beside one rolled file. *)
Definition blocked_world : World :=
  {| fs := [("/b/event-forwarder.17", (420, "seventeen"))];
     dirs := ["/b"; "/b/event-forwarder"];
     clock := 1000 * time_Second;
     upload_fails := false; backend_conn := None; remote := [] |}.

Definition start (w : World) : Machine := SimSink.machine SimSink.fresh w.

(** The orchestrator initialised on the empty directory, with nothing
    written: [currentFileSize] is 0 and the queue is empty. *)
Definition idle : Machine := final (Initialize "/b:bucket" (start empty_b)).

(** The same with [maxFileSize] lowered to 100. *)
Definition small : Machine :=
  {| this := set_maxFileSize 100 (this idle); world := world idle; trace := [] |}.

(** The same six minutes later, with one path waiting in the queue. *)
Definition late : Machine :=
  {| this := set_filesToUpload ["/b/event-forwarder.17"] (this idle);
     world := {| fs := fs (world idle); dirs := dirs (world idle);
                 clock := clock (world idle) + 6 * time_Minute;
                 upload_fails := false; backend_conn := backend_conn (world idle);
                 remote := [] |};
     trace := [] |}.

(** The live file removed behind the orchestrator's back: the sink writer's
    rollover fails. *)
Definition orphaned : Machine :=
  {| this := set_filesToUpload ["/b/event-forwarder.17"] (this idle);
     world := {| fs := []; dirs := dirs (world idle);
                 clock := clock (world idle) + 6 * time_Minute;
                 upload_fails := false; backend_conn := backend_conn (world idle);
                 remote := [] |};
     trace := [] |}.

(** The symbolic link of [restart_world], as a directory entry. *)
Definition link : FileInfo :=
  mkFileInfo "event-forwarder.lnk" (Z.lor ModeSymlink 511).

(** The idle orchestrator with two paths waiting in the queue. *)
Definition queued : Machine :=
  {| this := set_filesToUpload ["/b/one"; "/b/two"] (this idle);
     world := world idle; trace := [] |}.

(** An orchestrator constructed without a backend. *)
Definition bare : Machine :=
  SimSink.machine (new_BundledOutput None) empty_b.

(** A failed outcome, a successful one, a message and a tick. *)
Definition mixed : list Event :=
  [Recv_messages "hello";
   Recv_fileResultChan (mkUploadStatus "/b/three" (Some (mkError "refused")));
   Recv_refreshTicker;
   Recv_fileResultChan (mkUploadStatus "/b/one" None)].

Definition sixty_a : string :=
  "aaaaaaaaaaaaaaaaaaaaaaaaaaaaaaaaaaaaaaaaaaaaaaaaaaaaaaaaaaaa".
Definition sixty_b : string :=
  "bbbbbbbbbbbbbbbbbbbbbbbbbbbbbbbbbbbbbbbbbbbbbbbbbbbbbbbbbbbb".

(** A message of 120 bytes. *)
Definition big : string := (sixty_a ++ sixty_b)%string.

End Scenario.

(** * Properties *)

Section Properties.

Context {World FileOutput File : Type} {rt : Runtime World FileOutput File}.

Abbreviation Machine := (Machine World FileOutput File).
Abbreviation Effect := (Effect File).

(** The layout [rollOver] passes to the sink writer. *)
Abbreviation layout := "2006-01-02T15:04:05"%string.

Ltac run := unfold bind, ret, get_this, modify, emit, call, sink, panic; simpl.

(** ** Machine integers *)

Lemma wrap_small (z : Z) : Int64.in_range z -> Int64.wrap z = z.
Proof.
  unfold Int64.in_range, Int64.wrap, Int64.min, Int64.max. intros Hz.
  rewrite Z.mod_small by lia. lia.
Qed.

(** The counters and the size stay [int64] values. *)
Lemma add_in_range (a b : Z) : Int64.in_range (Int64.add a b).
Proof.
  unfold Int64.in_range, Int64.add, Int64.wrap, Int64.min, Int64.max.
  pose proof (Z.mod_pos_bound (a + b + 2 ^ 63) (2 ^ 64) ltac:(lia)). lia.
Qed.

(** ** Traces *)

Lemma skipn_length_app {A} (l t : list A) : skipn (List.length l) (l ++ t) = t.
Proof. induction l; simpl; auto. Qed.

Lemma effects_of_trace {A} (c : M A) (m : Machine) (t : list Effect) :
  trace (final (c m)) = trace m ++ t -> effects c m = t.
Proof. unfold effects. intros ->. apply skipn_length_app. Qed.

Lemma spawned_app (t1 t2 : list Effect) :
  spawned (t1 ++ t2) = spawned t1 ++ spawned t2.
Proof.
  induction t1 as [|e t1 IH]; simpl; auto.
  destruct e; simpl; rewrite ?IH; auto.
Qed.

Lemma reported_app (t1 t2 : list Effect) :
  reported (t1 ++ t2) = reported t1 ++ reported t2.
Proof.
  induction t1 as [|e t1 IH]; simpl; auto.
  destruct e; simpl; rewrite ?IH; auto.
Qed.

(** ** [rollOver] *)

Lemma rollOver_ok (m : Machine) fo fn fo' w' :
  tempFileOutput (this m) = Some fo ->
  FileOutput_rollOverFile layout fo (world m) = ((fn, None), (fo', w')) ->
  rollOver m =
  Returns None
    {| this := set_currentFileSize 0 (set_tempFileOutput (Some fo') (this m));
       world := w';
       trace := trace m ++ [Call_FileOutput_rollOverFile layout; Go_uploadOne fn] |}.
Proof.
  intros Hfo Hcall. unfold rollOver. run. rewrite Hfo, Hcall. simpl.
  now rewrite <- app_assoc.
Qed.

Lemma rollOver_err (m : Machine) fo fn e fo' w' :
  tempFileOutput (this m) = Some fo ->
  FileOutput_rollOverFile layout fo (world m) = ((fn, Some e), (fo', w')) ->
  rollOver m =
  Returns (Some e)
    {| this := set_tempFileOutput (Some fo') (this m);
       world := w';
       trace := trace m ++ [Call_FileOutput_rollOverFile layout] |}.
Proof.
  intros Hfo Hcall. unfold rollOver. run. now rewrite Hfo, Hcall.
Qed.

(** C3. When the sink writer's rollover succeeds, [rollOver] returns nil, the
    tracked [currentFileSize] is zero and exactly one uploader goroutine is
    started, for the path the sink writer returned. When it fails, the error
    is returned, no goroutine is started, and every field of the orchestrator
    is as before (the sink writer object is as the failed call left it), so
    [currentFileSize] is unchanged. *)
Theorem rollOver_resets_and_dispatches (m : Machine) fo fn err fo' w' :
  tempFileOutput (this m) = Some fo ->
  FileOutput_rollOverFile layout fo (world m) = ((fn, err), (fo', w')) ->
  exists m',
    rollOver m = Returns err m' /\
    match err with
    | None =>
        currentFileSize (this m') = 0 /\
        spawned (effects rollOver m) = [fn]
    | Some _ =>
        currentFileSize (this m') = currentFileSize (this m) /\
        spawned (effects rollOver m) = [] /\
        this m' = set_tempFileOutput (Some fo') (this m)
    end.
Proof.
  intros Hfo Hcall. destruct err as [e|].
  - pose proof (rollOver_err m fo fn e fo' w' Hfo Hcall) as E.
    eexists; split; [exact E|].
    repeat split.
    erewrite effects_of_trace by (rewrite E; reflexivity). reflexivity.
  - pose proof (rollOver_ok m fo fn fo' w' Hfo Hcall) as E.
    eexists; split; [exact E|].
    split; [reflexivity|].
    erewrite effects_of_trace by (rewrite E; reflexivity). reflexivity.
Qed.

(** ** [output] *)

Lemma len_small (s : string) :
  Z.of_nat (String.length s) <= Int64.max -> len s = Z.of_nat (String.length s).
Proof.
  intros H. unfold len. apply wrap_small.
  unfold Int64.in_range, Int64.min, Int64.max in *. lia.
Qed.

Lemma add_small (a : Z) (s : string) :
  Z.of_nat (String.length s) <= Int64.max ->
  Int64.in_range (a + Z.of_nat (String.length s)) ->
  Int64.add a (len s) = a + Z.of_nat (String.length s).
Proof.
  intros Hs Hr. unfold Int64.add. rewrite len_small by assumption.
  now apply wrap_small.
Qed.

Lemma output_within (m : Machine) fo message err fo' w' :
  tempFileOutput (this m) = Some fo ->
  (Int64.add (currentFileSize (this m)) (len message) >? maxFileSize (this m)) = false ->
  FileOutput_output message fo (world m) = (err, (fo', w')) ->
  output message m =
  Returns err
    {| this := set_tempFileOutput (Some fo')
                 (set_currentFileSize
                    (Int64.add (currentFileSize (this m)) (len message)) (this m));
       world := w';
       trace := trace m ++ [Call_FileOutput_output message] |}.
Proof.
  intros Hfo Hc Hcall. unfold output. run. rewrite Hc. simpl.
  now rewrite Hfo, Hcall.
Qed.

Lemma output_rolled (m : Machine) fo message fn fo1 w1 err fo2 w2 :
  tempFileOutput (this m) = Some fo ->
  (Int64.add (currentFileSize (this m)) (len message) >? maxFileSize (this m)) = true ->
  FileOutput_rollOverFile layout fo (world m) = ((fn, None), (fo1, w1)) ->
  FileOutput_output message fo1 w1 = (err, (fo2, w2)) ->
  output message m =
  Returns err
    {| this := set_tempFileOutput (Some fo2)
                 (set_currentFileSize (Int64.add 0 (len message))
                    (set_tempFileOutput (Some fo1) (this m)));
       world := w2;
       trace := trace m ++ [Call_FileOutput_rollOverFile layout; Go_uploadOne fn;
                            Call_FileOutput_output message] |}.
Proof.
  intros Hfo Hc Hroll Hcall. unfold output.
  unfold bind at 1. unfold get_this at 1. unfold bind at 1. rewrite Hc.
  rewrite (rollOver_ok m fo fn fo1 w1 Hfo Hroll). run. rewrite Hcall.
  now rewrite <- app_assoc.
Qed.

Lemma output_roll_failed (m : Machine) fo message fn e fo1 w1 :
  tempFileOutput (this m) = Some fo ->
  (Int64.add (currentFileSize (this m)) (len message) >? maxFileSize (this m)) = true ->
  FileOutput_rollOverFile layout fo (world m) = ((fn, Some e), (fo1, w1)) ->
  output message m =
  Returns (Some e)
    {| this := set_tempFileOutput (Some fo1) (this m);
       world := w1;
       trace := trace m ++ [Call_FileOutput_rollOverFile layout] |}.
Proof.
  intros Hfo Hc Hroll. unfold output.
  unfold bind at 1. unfold get_this at 1. unfold bind at 1. rewrite Hc.
  now rewrite (rollOver_err m fo fn e fo1 w1 Hfo Hroll).
Qed.

(** What one call of [output] adds to the trace: the append alone, or the
    rollover first, then (when the rollover succeeded) the goroutine and the
    append. *)
Lemma output_effects (m : Machine) fo message :
  tempFileOutput (this m) = Some fo ->
  if Int64.add (currentFileSize (this m)) (len message) >? maxFileSize (this m)
  then exists rest,
         effects (output message) m = Call_FileOutput_rollOverFile layout :: rest
         /\ existsb is_rollOverFile rest = false
  else effects (output message) m = [Call_FileOutput_output message].
Proof.
  intros Hfo.
  destruct (Int64.add _ _ >? _) eqn:Hc.
  - destruct (FileOutput_rollOverFile layout fo (world m))
      as [[fn [e|]] [fo1 w1]] eqn:Hroll.
    + exists []. split; [|reflexivity].
      apply effects_of_trace.
      now rewrite (output_roll_failed m fo message fn e fo1 w1 Hfo Hc Hroll).
    + destruct (FileOutput_output message fo1 w1) as [err [fo2 w2]] eqn:Hcall.
      exists [Go_uploadOne fn; Call_FileOutput_output message].
      split; [|reflexivity].
      apply effects_of_trace.
      now rewrite (output_rolled m fo message fn fo1 w1 err fo2 w2 Hfo Hc Hroll Hcall).
  - destruct (FileOutput_output message fo (world m)) as [err [fo' w']] eqn:Hcall.
    apply effects_of_trace.
    now rewrite (output_within m fo message err fo' w' Hfo Hc Hcall).
Qed.

(** [output] returns whenever the sink writer object is there. *)
Lemma output_returns (m : Machine) fo message :
  tempFileOutput (this m) = Some fo ->
  exists err m', output message m = Returns err m' /\
    (exists fo', tempFileOutput (this m') = Some fo') /\
    maxFileSize (this m') = maxFileSize (this m) /\
    ((Int64.add (currentFileSize (this m)) (len message) >? maxFileSize (this m)) = false ->
     currentFileSize (this m') = Int64.add (currentFileSize (this m)) (len message)) /\
    ((Int64.add (currentFileSize (this m)) (len message) >? maxFileSize (this m)) = true ->
     currentFileSize (this m') = Int64.add 0 (len message)
     \/ currentFileSize (this m') = currentFileSize (this m)).
Proof.
  intros Hfo.
  destruct (Int64.add (currentFileSize (this m)) (len message) >? maxFileSize (this m))
    eqn:Hc.
  - destruct (FileOutput_rollOverFile layout fo (world m))
      as [[fn [e|]] [fo1 w1]] eqn:Hroll.
    + rewrite (output_roll_failed m fo message fn e fo1 w1 Hfo Hc Hroll).
      do 2 eexists. split; [reflexivity|]. simpl.
      repeat split; eauto; discriminate.
    + destruct (FileOutput_output message fo1 w1) as [err [fo2 w2]] eqn:Hcall.
      rewrite (output_rolled m fo message fn fo1 w1 err fo2 w2 Hfo Hc Hroll Hcall).
      do 2 eexists. split; [reflexivity|]. simpl.
      repeat split; eauto; discriminate.
  - destruct (FileOutput_output message fo (world m)) as [err [fo' w']] eqn:Hcall.
    rewrite (output_within m fo message err fo' w' Hfo Hc Hcall).
    do 2 eexists. split; [reflexivity|]. simpl.
    repeat split; eauto; discriminate.
Qed.

Lemma total_len_nonneg (msgs : list string) : 0 <= total_len msgs.
Proof. induction msgs; simpl; lia. Qed.

Lemma Go_select_message (m : Machine) message :
  Go_select (Recv_messages message) m =
  match output message m with
  | Returns (Some e) m' =>
      Returns Return {| this := this m'; world := world m';
                        trace := trace m' ++ [Send_errorChan e] |}
  | Returns None m' => Returns Continue m'
  | Panics m' => Panics m'
  end.
Proof.
  unfold Go_select, bind. destruct (output message m) as [[e|] m'|m']; reflexivity.
Qed.

(** A run of the loop on messages that fit in the live file: the trace grows
    by appends (and, if an append fails, by the error report and the deferred
    calls), with no rollover and no goroutine; while no append fails, every
    message is appended, in the order received, and counted. *)
Lemma messages_within_no_rollover (msgs : list string) :
  forall (m : Machine) fo,
    tempFileOutput (this m) = Some fo ->
    0 <= currentFileSize (this m) ->
    maxFileSize (this m) <= Int64.max ->
    currentFileSize (this m) + total_len msgs <= maxFileSize (this m) ->
    exists l m' t,
      Go_loop (map Recv_messages msgs) m = Returns l m' /\
      trace m' = trace m ++ t /\
      existsb is_rollOverFile t = false /\ spawned t = [] /\
      (l = Continue ->
       t = map Call_FileOutput_output msgs /\
       currentFileSize (this m') = currentFileSize (this m) + total_len msgs).
Proof.
  induction msgs as [|a msgs IH]; intros m fo Hfo H0 Hmax Hsum.
  - exists Continue, m, []. simpl. rewrite app_nil_r, Z.add_0_r. repeat split.
  - cbn [total_len fold_right] in Hsum. fold (total_len msgs) in Hsum.
    pose proof (total_len_nonneg msgs) as Hn.
    assert (Ha : Int64.add (currentFileSize (this m)) (len a)
                 = currentFileSize (this m) + Z.of_nat (String.length a)).
    { apply add_small; unfold Int64.in_range, Int64.min, Int64.max in *; lia. }
    assert (Hc : (Int64.add (currentFileSize (this m)) (len a) >? maxFileSize (this m))
                 = false).
    { rewrite Ha, Z.gtb_ltb. apply Z.ltb_ge. lia. }
    destruct (FileOutput_output a fo (world m)) as [err [fo' w']] eqn:Hcall.
    pose proof (output_within m fo a err fo' w' Hfo Hc Hcall) as E.
    cbn [map Go_loop]. unfold bind at 1. rewrite Go_select_message, E.
    destruct err as [e|].
    + destruct (FileOutput_close fo' w') as [u [fo2 w2]] eqn:Hclose.
      unfold deferred. run. rewrite Hclose.
      do 2 eexists.
      exists [Call_FileOutput_output a; Send_errorChan e; Call_signal_Stop;
              Call_FileOutput_close; Call_Ticker_Stop].
      split; [reflexivity|]. simpl. rewrite <- !app_assoc.
      repeat split; discriminate.
    + cbv beta iota.
      match goal with |- context [Go_loop _ ?s] => set (m1 := s) end.
      destruct (IH m1 fo') as (l & m' & t & El & Et & Hr & Hs & Hl);
        [reflexivity | simpl; rewrite Ha; lia | simpl; lia
        | simpl; rewrite Ha; lia | ].
      exists l, m', (Call_FileOutput_output a :: t).
      split; [exact El|]. rewrite Et. simpl. rewrite <- app_assoc.
      repeat split; auto.
      * destruct (Hl H) as [-> _]. reflexivity.
      * destruct (Hl H) as [_ ->]. simpl. rewrite Ha.
        cbn [total_len fold_right]. fold (total_len msgs). lia.
Qed.

(** C1. Let the sink writer object be there.
    (1) A call of [output] asks the sink writer to roll over exactly when
    the Go sum [currentFileSize + int64(len(message))] is greater than
    [maxFileSize] (the mathematical sum when it does not overflow [int64]).
    When it is, the rollover is the first thing the call does; if the
    rollover fails the call returns its error and does nothing else; if it
    succeeds the call starts the goroutine for the rolled file, resets the
    size, counts the message, appends it to the fresh file and returns the
    result of the append. When the sum is not greater, the call only counts
    the message and appends it.
    (2) A run of [output] calls whose bytes, added to a non-negative
    [currentFileSize], stay within [maxFileSize] returns without any
    rollover and without starting a goroutine; while no append fails, all
    messages are appended in call order and counted.
    (3) With [maxFileSize = 100] and an empty file, two messages of 60
    bytes: the first call appends the first message and counts 60; the
    second call rolls over first; when that rollover succeeds it starts the
    goroutine for the rolled file and appends the second message to the
    fresh file; [currentFileSize] is 60 afterwards. *)
Theorem output_rolls_over_iff_exceeds (m : Machine) fo :
  tempFileOutput (this m) = Some fo ->
  (forall message,
     (existsb is_rollOverFile (effects (output message) m) = true <->
      Int64.add (currentFileSize (this m)) (len message) > maxFileSize (this m)) /\
     (Int64.add (currentFileSize (this m)) (len message) > maxFileSize (this m) ->
      forall fn err fo1 w1,
        FileOutput_rollOverFile layout fo (world m) = ((fn, err), (fo1, w1)) ->
        match err with
        | Some e =>
            exists m',
              output message m = Returns (Some e) m' /\
              effects (output message) m = [Call_FileOutput_rollOverFile layout] /\
              currentFileSize (this m') = currentFileSize (this m) /\
              world m' = w1
        | None =>
            forall r fo2 w2,
              FileOutput_output message fo1 w1 = (r, (fo2, w2)) ->
              exists m',
                output message m = Returns r m' /\
                effects (output message) m
                = [Call_FileOutput_rollOverFile layout; Go_uploadOne fn;
                   Call_FileOutput_output message] /\
                currentFileSize (this m') = Int64.add 0 (len message) /\
                world m' = w2
        end) /\
     (Int64.add (currentFileSize (this m)) (len message) <= maxFileSize (this m) ->
      forall r fo1 w1,
        FileOutput_output message fo (world m) = (r, (fo1, w1)) ->
        exists m',
          output message m = Returns r m' /\
          effects (output message) m = [Call_FileOutput_output message] /\
          currentFileSize (this m')
          = Int64.add (currentFileSize (this m)) (len message) /\
          world m' = w1) /\
     (Z.of_nat (String.length message) <= Int64.max ->
      Int64.in_range (currentFileSize (this m) + Z.of_nat (String.length message)) ->
      Int64.add (currentFileSize (this m)) (len message)
      = currentFileSize (this m) + Z.of_nat (String.length message))) /\
  (forall msgs,
     0 <= currentFileSize (this m) ->
     maxFileSize (this m) <= Int64.max ->
     currentFileSize (this m) + total_len msgs <= maxFileSize (this m) ->
     exists l m',
       Go_loop (map Recv_messages msgs) m = Returns l m' /\
       existsb is_rollOverFile (effects (Go_loop (map Recv_messages msgs)) m) = false /\
       spawned (effects (Go_loop (map Recv_messages msgs)) m) = [] /\
       (l = Continue ->
        effects (Go_loop (map Recv_messages msgs)) m
        = map Call_FileOutput_output msgs /\
        currentFileSize (this m') = currentFileSize (this m) + total_len msgs)) /\
  (forall first second,
     maxFileSize (this m) = 100 ->
     currentFileSize (this m) = 0 ->
     String.length first = 60%nat ->
     String.length second = 60%nat ->
     forall r1 fo1 w1 fn err fo2 w2,
       FileOutput_output first fo (world m) = (r1, (fo1, w1)) ->
       FileOutput_rollOverFile layout fo1 w1 = ((fn, err), (fo2, w2)) ->
       exists m1 r2 m2,
         output first m = Returns r1 m1 /\
         effects (output first) m = [Call_FileOutput_output first] /\
         currentFileSize (this m1) = 60 /\
         output second m1 = Returns r2 m2 /\
         currentFileSize (this m2) = 60 /\
         match err with
         | Some e =>
             r2 = Some e /\
             effects (output second) m1 = [Call_FileOutput_rollOverFile layout]
         | None =>
             r2 = fst (FileOutput_output second fo2 w2) /\
             world m2 = snd (snd (FileOutput_output second fo2 w2)) /\
             effects (output second) m1
             = [Call_FileOutput_rollOverFile layout; Go_uploadOne fn;
                Call_FileOutput_output second]
         end).
Proof.
  intros Hfo. split; [|split].
  - intros message. pose proof (output_effects m fo message Hfo) as He.
    destruct (Int64.add (currentFileSize (this m)) (len message)
              >? maxFileSize (this m)) eqn:Hc.
    + pose proof Hc as Hc'. rewrite Z.gtb_ltb in Hc'. apply Z.ltb_lt in Hc'.
      destruct He as (rest & He & Hrest).
      split; [|split; [|split]].
      * split; [intros _; lia|intros _; rewrite He; reflexivity].
      * intros _ fn err fo1 w1 Hroll. destruct err as [e|].
        -- pose proof (output_roll_failed m fo message fn e fo1 w1 Hfo Hc Hroll) as E.
           eexists. split; [exact E|].
           split; [apply effects_of_trace; rewrite E; reflexivity|].
           split; reflexivity.
        -- intros r fo2 w2 Hcall.
           pose proof (output_rolled m fo message fn fo1 w1 r fo2 w2
                         Hfo Hc Hroll Hcall) as E.
           eexists. split; [exact E|].
           split; [apply effects_of_trace; rewrite E; reflexivity|].
           split; reflexivity.
      * intros Hle. lia.
      * apply add_small.
    + pose proof Hc as Hc'. rewrite Z.gtb_ltb in Hc'. apply Z.ltb_ge in Hc'.
      split; [|split; [|split]].
      * split; [rewrite He; simpl; discriminate|intros Hgt; lia].
      * intros Hgt. lia.
      * intros _ r fo1 w1 Hcall.
        pose proof (output_within m fo message r fo1 w1 Hfo Hc Hcall) as E.
        eexists. split; [exact E|]. split; [exact He|]. split; reflexivity.
      * apply add_small.
  - intros msgs H0 Hmax Hsum.
    destruct (messages_within_no_rollover msgs m fo Hfo H0 Hmax Hsum)
      as (l & m' & t & El & Et & Hr & Hs & Hl).
    assert (Hef : effects (Go_loop (map Recv_messages msgs)) m = t).
    { apply effects_of_trace. now rewrite El. }
    rewrite Hef. exists l, m'. repeat split; auto; apply Hl; assumption.
  - intros first second Hmax Hcfs Hl1 Hl2 r1 fo1 w1 fn err fo2 w2 Hcall1 Hroll.
    assert (L1 : len first = 60).
    { rewrite len_small; rewrite Hl1; unfold Int64.max; lia. }
    assert (L2 : len second = 60).
    { rewrite len_small; rewrite Hl2; unfold Int64.max; lia. }
    assert (W60 : Int64.add 0 60 = 60).
    { apply wrap_small. unfold Int64.in_range, Int64.min, Int64.max. lia. }
    assert (W120 : Int64.add 60 60 = 120).
    { apply wrap_small. unfold Int64.in_range, Int64.min, Int64.max. lia. }
    assert (Hc1 : (Int64.add (currentFileSize (this m)) (len first)
                   >? maxFileSize (this m)) = false).
    { rewrite Hcfs, L1, W60, Hmax. reflexivity. }
    pose proof (output_within m fo first r1 fo1 w1 Hfo Hc1 Hcall1) as E1.
    rewrite Hcfs, L1, W60 in E1.
    match type of E1 with _ = Returns _ ?s => set (m1 := s) in * end.
    assert (Hfo1 : tempFileOutput (this m1) = Some fo1) by reflexivity.
    assert (Hc2 : (Int64.add (currentFileSize (this m1)) (len second)
                   >? maxFileSize (this m1)) = true).
    { simpl. rewrite L2, W120, Hmax. reflexivity. }
    destruct err as [e|].
    + pose proof (output_roll_failed m1 fo1 second fn e fo2 w2 Hfo1 Hc2 Hroll) as E2.
      eexists m1, _, _. split; [exact E1|].
      split; [apply effects_of_trace; rewrite E1; reflexivity|].
      split; [reflexivity|]. split; [exact E2|].
      split; [reflexivity|]. split; [reflexivity|].
      apply effects_of_trace. rewrite E2. reflexivity.
    + destruct (FileOutput_output second fo2 w2) as [r2 [fo3 w3]] eqn:Hcall2.
      pose proof (output_rolled m1 fo1 second fn fo2 w2 r2 fo3 w3
                    Hfo1 Hc2 Hroll Hcall2) as E2.
      eexists m1, _, _. split; [exact E1|].
      split; [apply effects_of_trace; rewrite E1; reflexivity|].
      split; [reflexivity|]. split; [exact E2|].
      split; [simpl; now rewrite L2|].
      split; [reflexivity|]. split; [reflexivity|].
      apply effects_of_trace. rewrite E2. reflexivity.
Qed.

(** ** [uploadOne] *)

(** After the backend has been called: the outcome is sent, the handle is
    closed, and the file is removed when the outcome carries no error. *)
Lemma uploadOne_trace (m : Machine) b name r w1 st w2 :
  behavior (this m) = Some b ->
  os_OpenFile name (world m) = (r, w1) ->
  let fp := match r with Ok f => Some f | Err _ => None end in
  UploadBehavior b name fp w1 = (st, w2) ->
  exists u m' tail,
    uploadOne name m = Returns u m' /\
    trace m' =
      trace m
      ++ (Call_os_OpenFile name
          :: match r with
             | Ok _ => []
             | Err e => [Send_fileResultChan (mkUploadStatus name (Some e))]
             end
          ++ [Call_UploadBehavior name fp; Send_fileResultChan st;
              Call_File_Close fp] ++ tail) /\
    reported tail = [] /\ filter is_UploadBehavior tail = [].
Proof.
  intros Hb Hopen fp Hup. unfold uploadOne. run. rewrite Hopen.
  destruct r as [f|e]; simpl; rewrite Hb; subst fp; simpl; rewrite Hup; simpl;
    destruct (result st) as [e'|]; simpl.
  - do 2 eexists. exists []. rewrite <- !app_assoc. simpl. repeat split.
  - destruct (os_Remove name (File_Close (Some f) w2)) as [[e2|] w3]; simpl.
    + do 2 eexists.
      exists [Call_os_Remove name;
              Log_Printf ("error removing " ++ name ++ ": " ++ Error e2)%string].
      rewrite <- !app_assoc. simpl. repeat split.
    + do 2 eexists. exists [Call_os_Remove name].
      rewrite <- !app_assoc. simpl. repeat split.
  - do 2 eexists. exists []. rewrite <- !app_assoc. simpl. repeat split.
  - destruct (os_Remove name (File_Close None w2)) as [[e2|] w3]; simpl.
    + do 2 eexists.
      exists [Call_os_Remove name;
              Log_Printf ("error removing " ++ name ++ ": " ++ Error e2)%string].
      rewrite <- !app_assoc. simpl. repeat split.
    + do 2 eexists. exists [Call_os_Remove name].
      rewrite <- !app_assoc. simpl. repeat split.
Qed.

(** When the file opens, one outcome is reported: the backend's. *)
Lemma uploadOne_opened_reports_once (m : Machine) b name f w1 st w2 :
  behavior (this m) = Some b ->
  os_OpenFile name (world m) = (Ok f, w1) ->
  UploadBehavior b name (Some f) w1 = (st, w2) ->
  reported (effects (uploadOne name) m) = [st].
Proof.
  intros Hb Hopen Hup.
  destruct (uploadOne_trace m b name (Ok f) w1 st w2 Hb Hopen Hup)
    as (u & m' & tail & E & Et & Hrep & _).
  erewrite effects_of_trace by (rewrite E; exact Et).
  simpl. now rewrite Hrep.
Qed.

(** C2, on the code as it is. When [os.OpenFile] fails, [uploadOne] sends the
    open failure on [fileResultChan] and, for want of a [return], goes on: it
    calls the backend with a nil handle and sends the backend's outcome too.
    Two outcomes are reported for the one invocation, and the backend is
    invoked. *)
Theorem uploadOne_open_failure_reports_twice (m : Machine) b name e w1 st w2 :
  behavior (this m) = Some b ->
  os_OpenFile name (world m) = (Err e, w1) ->
  UploadBehavior b name None w1 = (st, w2) ->
  reported (effects (uploadOne name) m) = [mkUploadStatus name (Some e); st] /\
  filter is_UploadBehavior (effects (uploadOne name) m)
  = [Call_UploadBehavior name None].
Proof.
  intros Hb Hopen Hup.
  destruct (uploadOne_trace m b name (Err e) w1 st w2 Hb Hopen Hup)
    as (u & m' & tail & E & Et & Hrep & Hup').
  erewrite effects_of_trace by (rewrite E; exact Et).
  simpl. now rewrite Hrep, Hup'.
Qed.

(** ** The event loop: upload outcomes *)

(** C4. When the loop receives an upload outcome (and the two counters are
    below the largest [int64]), it goes on waiting, and: if the outcome
    carries an error, [uploadErrors] grows by exactly 1, [lastUploadError] is
    the error's text, [lastUploadErrorTime] is the clock read on receipt, the
    outcome's path is appended at the back of [filesToUpload], and
    [successfulUploads] is unchanged; if it carries none, [successfulUploads]
    grows by exactly 1 and the queue, [uploadErrors] and the last error are
    unchanged. No goroutine is started either way. *)
Theorem fileResult_accounting (m : Machine) fileResult now w' :
  time_Now (world m) = (now, w') ->
  Int64.in_range (uploadErrors (this m) + 1) ->
  Int64.in_range (successfulUploads (this m) + 1) ->
  exists m',
    Go_select (Recv_fileResultChan fileResult) m = Returns Continue m' /\
    spawned (effects (Go_select (Recv_fileResultChan fileResult)) m) = [] /\
    match result fileResult with
    | Some e =>
        uploadErrors (this m') = uploadErrors (this m) + 1 /\
        lastUploadError (this m') = Error e /\
        lastUploadErrorTime (this m') = now /\
        filesToUpload (this m') = filesToUpload (this m) ++ [fileName fileResult] /\
        successfulUploads (this m') = successfulUploads (this m)
    | None =>
        successfulUploads (this m') = successfulUploads (this m) + 1 /\
        filesToUpload (this m') = filesToUpload (this m) /\
        uploadErrors (this m') = uploadErrors (this m) /\
        lastUploadError (this m') = lastUploadError (this m) /\
        lastUploadErrorTime (this m') = lastUploadErrorTime (this m)
    end.
Proof.
  intros Hnow He Hs. unfold effects, Go_select.
  destruct (result fileResult) as [e|]; run; rewrite ?Hnow; simpl.
  - eexists. split; [reflexivity|]. simpl.
    rewrite <- !app_assoc, skipn_length_app. simpl.
    unfold Int64.add. rewrite wrap_small by assumption. repeat split.
  - eexists. split; [reflexivity|]. simpl.
    rewrite skipn_length_app. simpl.
    unfold Int64.add. rewrite wrap_small by assumption. repeat split.
Qed.

(** ** The event loop: ticks and flushes *)

Lemma due_iff o fo now :
  Int64.min <= rollOverDuration o < Int64.max ->
  due o fo now = true <-> now - lastRolledOver fo > rollOverDuration o.
Proof.
  unfold due, Time_Sub. rewrite Z.gtb_ltb, Z.ltb_lt. lia.
Qed.

Lemma tick_run (m : Machine) fo now w1 fn err fo' w' :
  tempFileOutput (this m) = Some fo ->
  time_Now (world m) = (now, w1) ->
  FileOutput_rollOverFile layout fo w1 = ((fn, err), (fo', w')) ->
  let failure := if due (this m) fo now then err else None in
  exists l m',
    Go_select Recv_refreshTicker m = Returns l m' /\
    trace m' =
      trace m
      ++ Call_time_Now
         :: (if due (this m) fo now
             then Call_FileOutput_rollOverFile layout
                  :: match err with
                     | None => [Go_uploadOne fn]
                     | Some e => [Send_errorChan e]
                     end
             else [])
         ++ match failure with
            | Some _ => []
            | None => map Go_uploadOne (firstn 1 (filesToUpload (this m)))
            end /\
    l = match failure with Some _ => Return | None => Continue end /\
    filesToUpload (this m') =
      match failure with
      | Some _ => filesToUpload (this m)
      | None => tl (filesToUpload (this m))
      end /\
    currentFileSize (this m') =
      match failure with
      | Some _ => currentFileSize (this m)
      | None => if due (this m) fo now then 0 else currentFileSize (this m)
      end.
Proof.
  intros Hfo Hnow Hroll failure. subst failure. unfold due.
  unfold Go_select.
  unfold bind at 1. unfold call at 1. rewrite Hnow.
  unfold bind at 1. unfold get_this at 1. cbn [this]. rewrite Hfo.
  unfold bind at 1.
  destruct (Time_Sub now (lastRolledOver fo) >? rollOverDuration (this m)).
  - destruct err as [e|].
    + erewrite rollOver_err by (cbn [this world]; eassumption).
      run. do 2 eexists. split; [reflexivity|]. simpl.
      rewrite <- !app_assoc. repeat split.
    + erewrite rollOver_ok by (cbn [this world]; eassumption).
      run. destruct (filesToUpload (this m)) as [|f rest] eqn:Hq; simpl;
        rewrite ?Hq; do 2 eexists; (split; [reflexivity|]); simpl;
        rewrite <- !app_assoc; repeat split; auto.
  - run. destruct (filesToUpload (this m)) as [|f rest] eqn:Hq; simpl;
      rewrite ?Hq; do 2 eexists; (split; [reflexivity|]); simpl;
      rewrite <- ?app_assoc; repeat split; auto.
Qed.

Lemma existsb_dispatch (l : list string) :
  existsb is_rollOverFile (map Go_uploadOne l : list Effect) = false.
Proof. induction l; simpl; auto. Qed.

Lemma filter_dispatch (l : list string) :
  filter is_rollOverFile (map Go_uploadOne l : list Effect) = [].
Proof. induction l; simpl; auto. Qed.

Lemma spawned_dispatch (l : list string) :
  spawned (map Go_uploadOne l : list Effect) = l.
Proof. induction l; simpl; congruence. Qed.

(** C7, as the code has it. Let the sink writer object be there and
    [rollOverDuration] be below the largest [int64]. On a tick:
    (a) the sink writer is asked to roll over, once, exactly when the time
    since the last rollover is greater than [rollOverDuration], whatever
    [currentFileSize] is;
    (b) unless that rollover fails, the front of [filesToUpload], if there is
    one, is removed and one goroutine is started for it; the goroutines of
    the tick are the one of the rollover, if it was due, followed by the one
    of the queue: at most one from the queue, at most two in all. When the
    rollover fails the loop returns with the queue untouched and no
    goroutine. *)
Theorem tick_rollover_and_dispatch (m : Machine) fo now w1 fn err fo' w' :
  tempFileOutput (this m) = Some fo ->
  time_Now (world m) = (now, w1) ->
  FileOutput_rollOverFile layout fo w1 = ((fn, err), (fo', w')) ->
  Int64.min <= rollOverDuration (this m) < Int64.max ->
  let tick := Go_select Recv_refreshTicker in
  let old := now - lastRolledOver fo >? rollOverDuration (this m) in
  (existsb is_rollOverFile (effects tick m) = true <->
   now - lastRolledOver fo > rollOverDuration (this m)) /\
  (List.length (filter is_rollOverFile (effects tick m)) <= 1)%nat /\
  exists l m',
    tick m = Returns l m' /\
    match (if old then err else None) with
    | Some _ =>
        l = Return /\
        filesToUpload (this m') = filesToUpload (this m) /\
        spawned (effects tick m) = []
    | None =>
        l = Continue /\
        filesToUpload (this m') = tl (filesToUpload (this m)) /\
        spawned (effects tick m)
        = (if old then [fn] else []) ++ firstn 1 (filesToUpload (this m))
    end.
Proof.
  intros Hfo Hnow Hroll Hdur tick old. subst tick.
  destruct (tick_run m fo now w1 fn err fo' w' Hfo Hnow Hroll)
    as (l & m' & E & Et & El & Eq & _).
  assert (Hold : old = due (this m) fo now).
  { subst old. destruct (due (this m) fo now) eqn:Hd.
    - apply due_iff in Hd; [|assumption]. rewrite Z.gtb_ltb. apply Z.ltb_lt. lia.
    - rewrite Z.gtb_ltb. apply Z.ltb_ge.
      destruct (Z_gt_dec (now - lastRolledOver fo) (rollOverDuration (this m)))
        as [Hgt|]; [|lia].
      apply due_iff in Hgt; [congruence|assumption]. }
  rewrite Hold.
  assert (Hef : effects (Go_select Recv_refreshTicker) m = _)
    by (apply effects_of_trace; rewrite E; exact Et).
  rewrite Hef. clear Hef Et.
  rewrite <- (due_iff (this m) fo now Hdur).
  cbn [existsb filter spawned is_rollOverFile orb].
  rewrite existsb_app, filter_app, spawned_app, length_app.
  destruct (due (this m) fo now); destruct err as [e|];
    cbn [existsb filter spawned is_rollOverFile orb List.length app map];
    rewrite ?existsb_dispatch, ?filter_dispatch, ?spawned_dispatch;
    (split; [split; [reflexivity || discriminate | reflexivity || discriminate]|]);
    (split; [simpl; lia|]);
    exists l, m'; (split; [exact E|]); repeat split; auto.
Qed.

(** ** The event loop: SIGHUP *)



(** ** Strings *)

Lemma length_drop (n : nat) (s : string) :
  String.length (drop n s) = (String.length s - n)%nat.
Proof.
  revert s. induction n as [|n IH]; intros s; simpl.
  - lia.
  - destruct s; simpl; auto.
Qed.

Lemma prefix_length (p s : string) :
  String.prefix p s = true -> (String.length p <= String.length s)%nat.
Proof.
  revert s. induction p as [|a p IH]; intros s H.
  - simpl. lia.
  - destruct s as [|b s]; simpl in H; [discriminate|].
    destruct (ascii_dec a b); [|discriminate].
    apply IH in H. simpl. lia.
Qed.

Lemma prefix_same_length (p s : string) :
  String.prefix p s = true -> String.length p = String.length s -> s = p.
Proof.
  revert s. induction p as [|a p IH]; intros s H L.
  - destruct s; [reflexivity|discriminate].
  - destruct s as [|b s]; simpl in H; [discriminate|].
    destruct (ascii_dec a b) as [E|]; [subst b|discriminate].
    f_equal. apply IH; auto.
Qed.

Lemma cut_String (sep : string) (c : ascii) (s : string) :
  cut sep (String c s) =
  if String.prefix sep (String c s)
  then Some (EmptyString, drop (String.length sep) (String c s))
  else match cut sep s with
       | Some (before, after) => Some (String c before, after)
       | None => None
       end.
Proof. reflexivity. Qed.

Lemma prefix_colon (c : ascii) (s : string) :
  String.prefix ":" (String c s) = Ascii.eqb c ":".
Proof.
  cbn [String.prefix]. destruct (ascii_dec ":" c) as [<-|Hn].
  - destruct s; reflexivity.
  - symmetry. apply Ascii.eqb_neq. congruence.
Qed.

Lemma cut_first_colon (before after : string) :
  has_byte ":" before = false ->
  cut ":" (before ++ ":" ++ after) = Some (before, after).
Proof.
  induction before as [|c before IH]; intros H.
  - change (("" ++ ":" ++ after)%string) with (String ":" after).
    rewrite cut_String, prefix_colon. reflexivity.
  - simpl in H. apply orb_false_iff in H as [Hc Hb].
    change ((String c before ++ ":" ++ after)%string)
      with (String c (before ++ ":" ++ after)%string).
    rewrite cut_String, prefix_colon, Hc, (IH Hb). reflexivity.
Qed.

Lemma cut_no_colon (s : string) : has_byte ":" s = false -> cut ":" s = None.
Proof.
  induction s as [|c s IH]; intros H.
  - reflexivity.
  - simpl in H. apply orb_false_iff in H as [Hc Hs].
    rewrite cut_String, prefix_colon, Hc, (IH Hs). reflexivity.
Qed.

Lemma buffer_directory_prefix (before after : string) :
  has_byte ":" before = false ->
  buffer_directory (before ++ ":" ++ after) = before.
Proof.
  intros H. unfold buffer_directory, strings_SplitN. cbn [splitN_go].
  rewrite (cut_first_colon before after H). reflexivity.
Qed.

Lemma buffer_directory_default (s : string) :
  has_byte ":" s = false ->
  buffer_directory s = "/var/cb/data/event-forwarder"%string.
Proof.
  intros H. unfold buffer_directory, strings_SplitN. cbn [splitN_go].
  rewrite (cut_no_colon s H). reflexivity.
Qed.

(** ** [queueStragglers] *)

Lemma qualifies_iff (info : FileInfo) :
  qualifies info = true <->
  IsDir info = false /\
  strings_HasPrefix (Name info) "event-forwarder" = true /\
  (String.length "event-forwarder" < String.length (Name info))%nat.
Proof.
  unfold qualifies. rewrite !andb_true_iff, negb_true_iff, Nat.ltb_lt. tauto.
Qed.

Lemma queue_info_qualifies (dir : string) (info : FileInfo) (queue : list string) :
  queue_info dir info queue =
  if qualifies info then queue ++ [filepath_Join dir (Name info)] else queue.
Proof.
  unfold queue_info, qualifies. destruct (IsDir info); [reflexivity|].
  cbn [negb andb].
  destruct (strings_HasPrefix (Name info) "event-forwarder") eqn:Hp;
    [|reflexivity].
  cbn [negb andb]. unfold strings_TrimPrefix. rewrite Hp, length_drop.
  apply prefix_length in Hp.
  destruct (String.length "event-forwarder" <? String.length (Name info))%nat eqn:Hl.
  - apply Nat.ltb_lt in Hl.
    replace (0 <? _) with true; [reflexivity|]. symmetry. apply Z.ltb_lt. lia.
  - apply Nat.ltb_ge in Hl.
    replace (0 <? _) with false; [reflexivity|]. symmetry. apply Z.ltb_ge. lia.
Qed.

Lemma queue_fold (dir : string) (infos : list FileInfo) (queue : list string) :
  fold_left (fun q info => queue_info dir info q) infos queue
  = queue ++ stragglers dir infos.
Proof.
  revert queue. unfold stragglers.
  induction infos as [|info infos IH]; intros queue; simpl.
  - now rewrite app_nil_r.
  - rewrite IH, queue_info_qualifies.
    destruct (qualifies info); simpl; [now rewrite <- app_assoc|reflexivity].
Qed.

Lemma set_filesToUpload_same (o : BundledOutput World FileOutput File) :
  set_filesToUpload (filesToUpload o) o = o.
Proof. destruct o; reflexivity. Qed.

Lemma queueStragglers_run (m : Machine) :
  exists m' t,
    queueStragglers m = Returns tt m' /\
    this m' =
      set_filesToUpload
        (filesToUpload (this m)
         ++ stragglers (tempFileDirectory (this m))
              (listing (tempFileDirectory (this m)) (world m)))
        (this m) /\
    trace m' = trace m ++ t /\
    filter is_Behavior_Initialize t = [] /\
    spawned t = [] /\
    exists rest, t = Call_os_Open (tempFileDirectory (this m)) :: rest.
Proof.
  unfold queueStragglers, listing. run.
  destruct (os_Open (tempFileDirectory (this m)) (world m)) as [[fp|e] w1]; simpl.
  - destruct (File_Readdir fp w1) as [[infos [e|]] w2]; simpl.
    + do 2 eexists. split; [reflexivity|]. simpl.
      rewrite <- app_assoc. simpl. unfold stragglers. simpl.
      rewrite app_nil_r, set_filesToUpload_same. repeat split; simpl; eauto.
    + do 2 eexists. split; [reflexivity|]. simpl.
      rewrite <- app_assoc, queue_fold. repeat split; simpl; eauto.
  - do 2 eexists. split; [reflexivity|]. simpl.
    unfold stragglers. simpl. rewrite app_nil_r, set_filesToUpload_same.
    repeat split; eauto.
Qed.

(** When the directory cannot be opened or listed, the scan returns with
    the queue as it was. *)
Lemma queueStragglers_listing_failure (m : Machine) :
  listing (tempFileDirectory (this m)) (world m) = [] ->
  exists m', queueStragglers m = Returns tt m' /\ this m' = this m.
Proof.
  intros Hl. destruct (queueStragglers_run m) as (m' & t & E & Ethis & _).
  exists m'. split; [exact E|].
  rewrite Ethis, Hl. unfold stragglers. simpl.
  now rewrite app_nil_r, set_filesToUpload_same.
Qed.

(** C5, as the code has it. When the buffer directory is opened and listed,
    [queueStragglers] returns and appends to [filesToUpload], in listing
    order, the joined paths of exactly the entries that are not directories,
    whose name starts with [event-forwarder] and is strictly longer than it;
    whether such an entry is a regular file is not looked at. So a listing of
    non-directories named with the prefix yields as many new paths as it has
    entries other than the base file. *)
Theorem queueStragglers_enqueues_qualifying (m : Machine) fp w1 infos w2 :
  os_Open (tempFileDirectory (this m)) (world m) = (Ok fp, w1) ->
  File_Readdir fp w1 = ((infos, None), w2) ->
  exists m',
    queueStragglers m = Returns tt m' /\
    filesToUpload (this m')
    = filesToUpload (this m)
      ++ map (fun info => filepath_Join (tempFileDirectory (this m)) (Name info))
             (filter qualifies infos) /\
    (forall info,
       qualifies info = true <->
       IsDir info = false /\
       strings_HasPrefix (Name info) "event-forwarder" = true /\
       (String.length "event-forwarder" < String.length (Name info))%nat) /\
    ((forall info, In info infos ->
        IsDir info = false /\
        strings_HasPrefix (Name info) "event-forwarder" = true) ->
     List.length (filesToUpload (this m'))
     = (List.length (filesToUpload (this m))
        + List.length (filter (fun info =>
                         negb (String.eqb (Name info) "event-forwarder")) infos))%nat).
Proof.
  intros Hopen Hread.
  destruct (queueStragglers_run m) as (m' & t & E & Ethis & _).
  unfold listing in Ethis. rewrite Hopen, Hread in Ethis.
  exists m'. split; [exact E|]. rewrite Ethis. cbn [filesToUpload set_filesToUpload].
  split; [reflexivity|]. split; [exact qualifies_iff|].
  intros Hall. unfold stragglers. rewrite length_app, length_map. f_equal.
  clear - Hall. induction infos as [|info infos IH]; [reflexivity|].
  assert (Hq : qualifies info = negb (String.eqb (Name info) "event-forwarder")).
  { destruct (Hall info (or_introl eq_refl)) as [Hd Hp].
    unfold qualifies. rewrite Hd, Hp. cbn [negb andb].
    pose proof (prefix_length _ _ Hp) as Hle.
    destruct (String.eqb_spec (Name info) "event-forwarder") as [Heq|Hne].
    - rewrite Heq. reflexivity.
    - apply Nat.ltb_lt.
      destruct (Nat.eq_dec (String.length "event-forwarder")
                           (String.length (Name info))) as [Hl|Hl]; [|lia].
      exfalso. apply Hne. now apply prefix_same_length. }
  cbn [filter]. rewrite Hq.
  destruct (negb _); cbn [List.length]; rewrite IH; auto;
    intros i Hi; apply Hall; now right.
Qed.

(** ** [Initialize] *)

Lemma Initialize_no_behavior (m : Machine) conn :
  behavior (this m) = None ->
  Initialize conn m =
  Returns (Some (mkError "BundledOutput Initialize called without a behavior"))
    {| this := defaults conn (this m); world := world m; trace := trace m |}.
Proof.
  intros Hb. unfold Initialize, defaults, buffer_directory. run.
  destruct (1 <? _); simpl; rewrite Hb; reflexivity.
Qed.

Lemma Initialize_backend_fails (m : Machine) conn b e w1 :
  behavior (this m) = Some b ->
  Behavior_Initialize b conn (world m) = (Some e, w1) ->
  Initialize conn m =
  Returns (Some e)
    {| this := defaults conn (this m); world := w1;
       trace := trace m ++ [Call_Behavior_Initialize conn] |}.
Proof.
  intros Hb Hinit. unfold Initialize, defaults, buffer_directory. run.
  destruct (1 <? _); simpl; rewrite Hb; simpl; rewrite Hinit; reflexivity.
Qed.

Lemma Initialize_mkdir_fails (m : Machine) conn b w1 e w2 :
  behavior (this m) = Some b ->
  Behavior_Initialize b conn (world m) = (None, w1) ->
  os_MkdirAll (buffer_directory conn) w1 = (Some e, w2) ->
  Initialize conn m =
  Returns (Some e)
    {| this := defaults conn (this m); world := w2;
       trace := trace m ++ [Call_Behavior_Initialize conn;
                            Call_os_MkdirAll (buffer_directory conn)] |}.
Proof.
  intros Hb Hinit. unfold Initialize, defaults, buffer_directory. run.
  destruct (1 <? _); simpl; rewrite Hb; simpl; rewrite Hinit; simpl;
    intros ->; simpl; now rewrite <- app_assoc.
Qed.

(** Past the directory creation: the sink writer is initialised, the scan
    runs, and the sink writer's result is returned. *)
Lemma Initialize_scans (m : Machine) conn b w1 w2 err fo w3 :
  behavior (this m) = Some b ->
  Behavior_Initialize b conn (world m) = (None, w1) ->
  os_MkdirAll (buffer_directory conn) w1 = (None, w2) ->
  FileOutput_Initialize (filepath_Join (buffer_directory conn) "event-forwarder")
    FileOutput_zero w2 = (err, (fo, w3)) ->
  exists m' t,
    Initialize conn m = Returns err m' /\
    this m' =
      set_filesToUpload
        (stragglers (buffer_directory conn) (listing (buffer_directory conn) w3))
        (set_tempFileOutput (Some fo) (defaults conn (this m))) /\
    trace m' =
      trace m
      ++ [Call_Behavior_Initialize conn;
          Call_os_MkdirAll (buffer_directory conn);
          Call_FileOutput_Initialize
            (filepath_Join (buffer_directory conn) "event-forwarder")] ++ t /\
    filter is_Behavior_Initialize t = [] /\
    spawned t = [] /\
    exists rest, t = Call_os_Open (buffer_directory conn) :: rest.
Proof.
  intros Hb Hinit Hmk Hsink.
  set (m1 := {| this := set_tempFileOutput (Some fo) (defaults conn (this m));
                world := w3;
                trace := trace m
                  ++ [Call_Behavior_Initialize conn;
                      Call_os_MkdirAll (buffer_directory conn);
                      Call_FileOutput_Initialize
                        (filepath_Join (buffer_directory conn) "event-forwarder")]
             |}).
  assert (E : Initialize conn m = (queueStragglers ;; ret err) m1).
  { subst m1. revert Hmk Hsink.
    unfold Initialize, defaults, buffer_directory. run.
    destruct (1 <? _); simpl; rewrite Hb; simpl; rewrite Hinit; simpl;
      intros ->; simpl; intros ->; simpl; rewrite <- !app_assoc; reflexivity. }
  destruct (queueStragglers_run m1) as (m' & t & Eq & Ethis & Et & Hf & Hs & Hr).
  exists m', t. rewrite E. unfold bind at 1. rewrite Eq.
  split; [reflexivity|]. split; [exact Ethis|].
  split; [|auto]. rewrite Et. subst m1. cbn [trace]. now rewrite <- app_assoc.
Qed.

(** [Initialize] always returns; what it leaves behind. *)
Lemma Initialize_run (m : Machine) conn :
  exists err m' t,
    Initialize conn m = Returns err m' /\
    trace m' = trace m ++ t /\
    tempFileDirectory (this m') = buffer_directory conn /\
    currentFileSize (this m') = currentFileSize (this m) /\
    maxFileSize (this m') = 10 * 1024 * 1024 /\
    (err = None -> exists fo, tempFileOutput (this m') = Some fo) /\
    filter is_Behavior_Initialize t
    = match behavior (this m) with
      | Some _ => [Call_Behavior_Initialize conn]
      | None => []
      end /\
    spawned t = [].
Proof.
  destruct (behavior (this m)) as [b|] eqn:Hb.
  2:{ rewrite (Initialize_no_behavior m conn Hb).
      do 2 eexists. exists []. rewrite app_nil_r.
      repeat split; auto; discriminate. }
  destruct (Behavior_Initialize b conn (world m)) as [[e|] w1] eqn:Hinit.
  { rewrite (Initialize_backend_fails m conn b e w1 Hb Hinit).
    do 3 eexists. repeat split; auto; discriminate. }
  destruct (os_MkdirAll (buffer_directory conn) w1) as [[e|] w2] eqn:Hmk.
  { rewrite (Initialize_mkdir_fails m conn b w1 e w2 Hb Hinit Hmk).
    do 3 eexists. repeat split; auto; discriminate. }
  destruct (FileOutput_Initialize
              (filepath_Join (buffer_directory conn) "event-forwarder")
              FileOutput_zero w2) as [err [fo w3]] eqn:Hsink.
  destruct (Initialize_scans m conn b w1 w2 err fo w3 Hb Hinit Hmk Hsink)
    as (m' & t & E & Ethis & Et & Hf & Hs & _).
  rewrite E. do 3 eexists. split; [reflexivity|]. split; [exact Et|].
  rewrite Ethis. simpl. rewrite Hf, Hs. repeat split; eauto.
Qed.

(** C6, as the code has it. [Initialize] always returns. If the connection
    string has a [:], the text before the first one becomes
    [tempFileDirectory]; if it has none, the directory is
    [/var/cb/data/event-forwarder]. In both cases, when a backend is
    configured its [Initialize] is called once, with the whole connection
    string: the directory prefix is not cut off. *)
Theorem Initialize_directory_and_backend_argument (m : Machine) conn :
  exists err m',
    Initialize conn m = Returns err m' /\
    (forall before after,
       conn = (before ++ ":" ++ after)%string ->
       has_byte ":" before = false ->
       tempFileDirectory (this m') = before) /\
    (has_byte ":" conn = false ->
     tempFileDirectory (this m') = "/var/cb/data/event-forwarder"%string) /\
    (forall b,
       behavior (this m) = Some b ->
       filter is_Behavior_Initialize (effects (Initialize conn) m)
       = [Call_Behavior_Initialize conn]).
Proof.
  destruct (Initialize_run m conn) as (err & m' & t & E & Et & Hd & _ & _ & _ & Hf & _).
  exists err, m'. split; [exact E|]. rewrite Hd. repeat split.
  - intros before after -> Hb. now apply buffer_directory_prefix.
  - apply buffer_directory_default.
  - intros b Hb. erewrite effects_of_trace by (rewrite E; exact Et).
    now rewrite Hf, Hb.
Qed.

(** C10. When the backend and the directory creation succeed and the sink
    writer's [Initialize] fails, [Initialize] still opens and lists the
    buffer directory after the sink writer's attempt, leaves in
    [filesToUpload] the paths of the qualifying entries, in listing order,
    and returns the sink writer's error. *)
Theorem Initialize_scans_when_sink_fails
    (m : Machine) conn b w1 w2 e fo w3 fp w4 infos w5 :
  behavior (this m) = Some b ->
  Behavior_Initialize b conn (world m) = (None, w1) ->
  os_MkdirAll (buffer_directory conn) w1 = (None, w2) ->
  FileOutput_Initialize (filepath_Join (buffer_directory conn) "event-forwarder")
    FileOutput_zero w2 = (Some e, (fo, w3)) ->
  os_Open (buffer_directory conn) w3 = (Ok fp, w4) ->
  File_Readdir fp w4 = ((infos, None), w5) ->
  exists m' rest,
    Initialize conn m = Returns (Some e) m' /\
    filesToUpload (this m')
    = map (fun info => filepath_Join (buffer_directory conn) (Name info))
          (filter qualifies infos) /\
    effects (Initialize conn) m
    = [Call_Behavior_Initialize conn;
       Call_os_MkdirAll (buffer_directory conn);
       Call_FileOutput_Initialize
         (filepath_Join (buffer_directory conn) "event-forwarder");
       Call_os_Open (buffer_directory conn)] ++ rest.
Proof.
  intros Hb Hinit Hmk Hsink Hopen Hread.
  destruct (Initialize_scans m conn b w1 w2 (Some e) fo w3 Hb Hinit Hmk Hsink)
    as (m' & t & E & Ethis & Et & _ & _ & rest & Hrest).
  exists m', rest. split; [exact E|]. split.
  - rewrite Ethis. unfold listing. rewrite Hopen, Hread. reflexivity.
  - apply effects_of_trace. rewrite E. cbn [final]. rewrite Et, Hrest. reflexivity.
Qed.

(** After [Initialize], whatever the world holds, [currentFileSize] is what
    it was before: zero for a freshly constructed orchestrator. A first
    message no longer than [maxFileSize] is then appended without a
    rollover. *)
Lemma Initialize_keeps_currentFileSize (m : Machine) conn :
  exists err m',
    Initialize conn m = Returns err m' /\
    currentFileSize (this m') = currentFileSize (this m) /\
    (currentFileSize (this m) = 0 -> err = None ->
     forall message,
       Z.of_nat (String.length message) <= 10 * 1024 * 1024 ->
       effects (output message) m' = [Call_FileOutput_output message]).
Proof.
  destruct (Initialize_run m conn)
    as (err & m' & t & E & _ & _ & Hsz & Hmax & Hfo & _).
  exists err, m'. split; [exact E|]. split; [exact Hsz|].
  intros H0 Hnil message Hlen. destruct (Hfo Hnil) as [fo Hfo'].
  pose proof (output_effects m' fo message Hfo') as He.
  rewrite Hsz, H0, Hmax in He.
  unfold Int64.add in He. rewrite len_small in He by (unfold Int64.max; lia).
  rewrite wrap_small in He
    by (unfold Int64.in_range, Int64.min, Int64.max; lia).
  replace (0 + Z.of_nat (String.length message) >? 10 * 1024 * 1024)
    with false in He; [exact He|].
  symmetry. rewrite Z.gtb_ltb. apply Z.ltb_ge. lia.
Qed.

End Properties.

(** * The scenarios, run *)

Section Runs.

Import Sim Scenario.

Local Open Scope string_scope.

Abbreviation layout := "2006-01-02T15:04:05".

(** The 100/60/60 scenario on the in-memory file system: the rolled file
    holds the first message alone, the live file the second. *)
Example scenario_100_60_60 :
  let m2 := final ((_ <- output sixty_a ;; output sixty_b) small) in
  currentFileSize (this m2) = 60 /\
  trace m2 = [Call_FileOutput_output sixty_a;
              Call_FileOutput_rollOverFile layout;
              Go_uploadOne "/b/event-forwarder.1000";
              Call_FileOutput_output sixty_b] /\
  fs (world m2) = [("/b/event-forwarder.1000", (420, sixty_a));
                   ("/b/event-forwarder", (420, sixty_b))].
Proof. vm_compute. repeat split. Qed.

Lemma output_rolls_over_iff_exceeds_witness :
  exists m1 r2 m2,
    output sixty_a small = Returns None m1 /\
    effects (output sixty_a) small = [Call_FileOutput_output sixty_a] /\
    currentFileSize (this m1) = 60 /\
    output sixty_b m1 = Returns r2 m2 /\
    currentFileSize (this m2) = 60 /\
    r2 = None /\
    fs (world m2) = [("/b/event-forwarder.1000", (420, sixty_a));
                     ("/b/event-forwarder", (420, sixty_b))] /\
    effects (output sixty_b) m1
    = [Call_FileOutput_rollOverFile layout;
       Go_uploadOne "/b/event-forwarder.1000";
       Call_FileOutput_output sixty_b].
Proof.
  destruct (output_rolls_over_iff_exceeds small
              {| SimSink.outputFileName := "/b/event-forwarder";
                 SimSink.rolledOverAt := 1000 * time_Second |} eq_refl)
    as (_ & _ & H).
  destruct (H sixty_a sixty_b eq_refl eq_refl eq_refl eq_refl
              None
              {| SimSink.outputFileName := "/b/event-forwarder";
                 SimSink.rolledOverAt := 1000 * time_Second |}
              (snd (snd (SimSink.output sixty_a
                           {| SimSink.outputFileName := "/b/event-forwarder";
                              SimSink.rolledOverAt := 1000 * time_Second |}
                           (world small))))
              "/b/event-forwarder.1000" None
              {| SimSink.outputFileName := "/b/event-forwarder";
                 SimSink.rolledOverAt := 1000 * time_Second |}
              (snd (snd (SimSink.rollOverFile layout
                           {| SimSink.outputFileName := "/b/event-forwarder";
                              SimSink.rolledOverAt := 1000 * time_Second |}
                           (snd (snd (SimSink.output sixty_a
                                        {| SimSink.outputFileName := "/b/event-forwarder";
                                           SimSink.rolledOverAt := 1000 * time_Second |}
                                        (world small))))))))
    as (m1 & r2 & m2 & E1 & T1 & S1 & E2 & S2 & R2 & W2 & T2).
  - vm_compute. reflexivity.
  - vm_compute. reflexivity.
  - exists m1, r2, m2. split; [exact E1|]. split; [exact T1|]. split; [exact S1|].
    split; [exact E2|]. split; [exact S2|].
    split; [rewrite R2; vm_compute; reflexivity|].
    split; [rewrite W2; vm_compute; reflexivity|exact T2].
Defined.

Lemma uploadOne_open_failure_reports_twice_witness :
  reported (effects (uploadOne "/b/gone") idle)
  = [mkUploadStatus "/b/gone"
       (Some (mkError "open /b/gone: no such file or directory"));
     mkUploadStatus "/b/gone" (Some (mkError "invalid argument"))] /\
  filter is_UploadBehavior (effects (uploadOne "/b/gone") idle)
  = [Call_UploadBehavior "/b/gone" None].
Proof.
  apply (uploadOne_open_failure_reports_twice idle backend "/b/gone"
           (mkError "open /b/gone: no such file or directory") (world idle)
           (mkUploadStatus "/b/gone" (Some (mkError "invalid argument")))
           (world idle)); reflexivity.
Defined.

Lemma rollOver_resets_and_dispatches_witness :
  exists m',
    rollOver idle = Returns None m' /\
    currentFileSize (this m') = 0 /\
    spawned (effects rollOver idle) = ["/b/event-forwarder.1000"].
Proof.
  eapply (rollOver_resets_and_dispatches idle _ _ None); reflexivity.
Defined.

Lemma fileResult_accounting_witness :
  exists m',
    Go_select (Recv_fileResultChan
                 (mkUploadStatus "/b/event-forwarder.17"
                    (Some (mkError "upload refused")))) idle
    = Returns Continue m' /\
    uploadErrors (this m') = 1 /\
    lastUploadError (this m') = "upload refused" /\
    lastUploadErrorTime (this m') = 1000 * time_Second /\
    filesToUpload (this m') = ["/b/event-forwarder.17"] /\
    successfulUploads (this m') = 0.
Proof.
  destruct (fileResult_accounting idle
              (mkUploadStatus "/b/event-forwarder.17"
                 (Some (mkError "upload refused")))
              (1000 * time_Second) (world idle))
    as (m' & E & _ & H).
  - reflexivity.
  - vm_compute. split; discriminate.
  - vm_compute. split; discriminate.
  - exists m'. split; [exact E|]. exact H.
Defined.

(** C5 as stated fails: on the restart scenario the scan enqueues the
    symbolic link [event-forwarder.lnk], which is not a regular file. *)
Lemma queueStragglers_enqueues_symlink :
  let m := {| this := this idle; world := restart_world "old"; trace := [] |} in
  let m' := final (queueStragglers m) in
  filesToUpload (this m') = ["/b/event-forwarder.17"; "/b/event-forwarder.lnk"] /\
  ~ (forall info,
       In info (listing "/b" (world m)) ->
       In (filepath_Join "/b" (Name info)) (filesToUpload (this m')) <->
       qualifies_regular info = true).
Proof.
  split; [reflexivity|].
  intros H. specialize (H link).
  assert (Hin : In link (listing "/b" (restart_world "old"))).
  { vm_compute. auto 10. }
  destruct (H Hin) as [H1 _].
  assert (Hq : qualifies_regular link = true).
  { apply H1. vm_compute. auto 10. }
  vm_compute in Hq. discriminate Hq.
Qed.

Lemma queueStragglers_enqueues_qualifying_witness :
  exists m',
    queueStragglers
      {| this := this idle; world := restart_world "old"; trace := [] |}
    = Returns tt m' /\
    filesToUpload (this m') = ["/b/event-forwarder.17"; "/b/event-forwarder.lnk"].
Proof.
  destruct (queueStragglers_enqueues_qualifying
              {| this := this idle; world := restart_world "old"; trace := [] |}
              "/b" (restart_world "old")
              (listing "/b" (restart_world "old")) (restart_world "old"))
    as (m' & E & H & _).
  - vm_compute. reflexivity.
  - vm_compute. reflexivity.
  - exists m'. split; [exact E|]. rewrite H. reflexivity.
Defined.

(** C6 as stated fails: with [/b:bucket] the backend is initialised with
    [/b:bucket], not with the remainder [bucket]. *)
Lemma Initialize_passes_whole_string :
  let m' := final (Initialize "/b:bucket" (start empty_b)) in
  tempFileDirectory (this m') = "/b" /\
  filter is_Behavior_Initialize (trace m') = [Call_Behavior_Initialize "/b:bucket"] /\
  backend_conn (world m') = Some "/b:bucket" /\
  backend_conn (world m') <> Some "bucket".
Proof. vm_compute. repeat split. discriminate. Qed.

Lemma Initialize_directory_and_backend_argument_witness :
  exists err m',
    Initialize "/b:bucket" (start empty_b) = Returns err m' /\
    tempFileDirectory (this m') = "/b" /\
    filter is_Behavior_Initialize (effects (Initialize "/b:bucket") (start empty_b))
    = [Call_Behavior_Initialize "/b:bucket"].
Proof.
  destruct (Initialize_directory_and_backend_argument (start empty_b) "/b:bucket")
    as (err & m' & E & Hdir & _ & Hb).
  exists err, m'. split; [exact E|]. split.
  - apply (Hdir "/b" "bucket"); reflexivity.
  - apply (Hb backend). reflexivity.
Defined.

(** C7 as stated fails: a tick that finds the live file too old and the queue
    non-empty starts two uploader goroutines, one for the rolled file and one
    for the front of the queue. *)
Lemma tick_starts_two_uploads :
  spawned (effects (Go_select Recv_refreshTicker) late)
  = ["/b/event-forwarder.1360"; "/b/event-forwarder.17"] /\
  ~ (List.length (spawned (effects (Go_select Recv_refreshTicker) late)) <= 1)%nat.
Proof. split; [reflexivity|]. vm_compute. lia. Qed.

(** A tick whose rollover fails leaves the queue as it is. *)
Example tick_rollover_failure_keeps_queue :
  let m' := final (Go_select Recv_refreshTicker orphaned) in
  filesToUpload (this m') = ["/b/event-forwarder.17"] /\
  spawned (trace m') = [] /\
  Go_select Recv_refreshTicker orphaned = Returns Return m'.
Proof. vm_compute. repeat split. Qed.

Lemma tick_rollover_and_dispatch_witness :
  exists l m',
    Go_select Recv_refreshTicker late = Returns l m' /\
    l = Continue /\
    filesToUpload (this m') = [] /\
    spawned (effects (Go_select Recv_refreshTicker) late)
    = ["/b/event-forwarder.1360"; "/b/event-forwarder.17"].
Proof.
  destruct (tick_rollover_and_dispatch late
              {| SimSink.outputFileName := "/b/event-forwarder";
                 SimSink.rolledOverAt := 1000 * time_Second |}
              (1360 * time_Second) (world late)
              "/b/event-forwarder.1360" None
              {| SimSink.outputFileName := "/b/event-forwarder";
                 SimSink.rolledOverAt := 1360 * time_Second |}
              (snd (snd (SimSink.rollOverFile layout
                           {| SimSink.outputFileName := "/b/event-forwarder";
                              SimSink.rolledOverAt := 1000 * time_Second |}
                           (world late)))))
    as (_ & _ & l & m' & E & H).
  - vm_compute. reflexivity.
  - vm_compute. reflexivity.
  - vm_compute. reflexivity.
  - vm_compute. split; [discriminate|reflexivity].
  - exists l, m'. split; [exact E|]. exact H.
Defined.


(** The file rolled over by a flush of an idle orchestrator is empty, and a
    goroutine is started for it all the same. *)
Example flush_of_idle_uploads_empty_file :
  let m' := final (Go_select Recv_hup idle) in
  spawned (effects (Go_select Recv_hup) idle) = ["/b/event-forwarder.1000"] /\
  lookup "/b/event-forwarder.1000" (fs (world m')) = Some (420, "").
Proof. vm_compute. repeat split. Qed.

Lemma Initialize_scans_when_sink_fails_witness :
  exists m',
    Initialize "/b:bucket" (start blocked_world)
    = Returns (Some (mkError "open /b/event-forwarder: is a directory")) m' /\
    filesToUpload (this m') = ["/b/event-forwarder.17"].
Proof.
  destruct (Initialize_scans_when_sink_fails (start blocked_world) "/b:bucket"
              backend
              (snd (Behavior_Initialize backend "/b:bucket" blocked_world))
              (snd (Behavior_Initialize backend "/b:bucket" blocked_world))
              (mkError "open /b/event-forwarder: is a directory")
              {| SimSink.outputFileName := "/b/event-forwarder";
                 SimSink.rolledOverAt := - 62135596800 * time_Second |}
              (snd (Behavior_Initialize backend "/b:bucket" blocked_world))
              "/b"
              (snd (Behavior_Initialize backend "/b:bucket" blocked_world))
              [mkFileInfo "event-forwarder.17" 420]
              (snd (Behavior_Initialize backend "/b:bucket" blocked_world)))
    as (m' & rest & E & H & _).
  - vm_compute. reflexivity.
  - vm_compute. reflexivity.
  - vm_compute. reflexivity.
  - vm_compute. reflexivity.
  - vm_compute. reflexivity.
  - vm_compute. reflexivity.
  - exists m'. split; [exact E|]. rewrite H. reflexivity.
Defined.

(** C8. (1) Whatever the world holds, [Initialize] returns and leaves
    [currentFileSize] as it was: zero for a freshly constructed
    orchestrator, whether or not the live file already has bytes in it; if
    it succeeded, a first message no longer than [maxFileSize] is appended
    without a rollover. (2) On the in-memory file system, with a live file
    left by an earlier run that holds [old]: [Initialize] succeeds with
    [currentFileSize = 0]; a message of at most [maxFileSize] bytes is then
    appended without a rollover, [currentFileSize] is the length of that
    message alone, and the live file holds [old] followed by the message, so
    its size is beyond [maxFileSize] as soon as [old] is long enough. *)
Theorem Initialize_does_not_count_existing_bytes :
  (forall (World FileOutput File : Type) (rt : Runtime World FileOutput File)
          (b : option (BundleBehavior World File)) (w : World) conn,
     exists err m',
       Initialize conn {| this := new_BundledOutput b; world := w; trace := [] |}
       = Returns err m' /\
       currentFileSize (this m') = 0 /\
       (err = None ->
        forall message,
          Z.of_nat (String.length message) <= 10 * 1024 * 1024 ->
          effects (output message) m' = [Call_FileOutput_output message])) /\
  (forall old message,
     Z.of_nat (String.length message) <= 10 * 1024 * 1024 ->
     exists m1 m2,
       Initialize "/b:bucket" (start (restart_world old)) = Returns None m1 /\
       currentFileSize (this m1) = 0 /\
       maxFileSize (this m1) = 10 * 1024 * 1024 /\
       output message m1 = Returns None m2 /\
       effects (output message) m1 = [Call_FileOutput_output message] /\
       currentFileSize (this m2) = Z.of_nat (String.length message) /\
       lookup "/b/event-forwarder" (fs (world m2))
       = Some (420, (old ++ message)%string)).
Proof.
  split.
  - intros World FileOutput File rt b w conn.
    destruct (Initialize_keeps_currentFileSize
                {| this := new_BundledOutput b; world := w; trace := [] |} conn)
      as (err & m' & E & Hsz & Hout).
    exists err, m'. split; [exact E|]. split; [exact Hsz|].
    intros Hnil. now apply Hout.
  - intros old message Hlen.
    set (m1 := final (Initialize "/b:bucket" (start (restart_world old)))).
    assert (E1 : Initialize "/b:bucket" (start (restart_world old)) = Returns None m1)
      by (vm_compute; reflexivity).
    set (fo := {| SimSink.outputFileName := "/b/event-forwarder";
                  SimSink.rolledOverAt := 5000 * time_Second |}).
    assert (Hfo : tempFileOutput (this m1) = Some fo) by (vm_compute; reflexivity).
    assert (Hsz : currentFileSize (this m1) = 0) by (vm_compute; reflexivity).
    assert (Hmax : maxFileSize (this m1) = 10 * 1024 * 1024)
      by (vm_compute; reflexivity).
    assert (Ha : Int64.add (currentFileSize (this m1)) (len message)
                 = Z.of_nat (String.length message)).
    { rewrite Hsz, add_small; [reflexivity| |];
        unfold Int64.in_range, Int64.min, Int64.max; lia. }
    assert (Hc : (Int64.add (currentFileSize (this m1)) (len message)
                  >? maxFileSize (this m1)) = false).
    { rewrite Ha, Hmax, Z.gtb_ltb. apply Z.ltb_ge. lia. }
    pose proof (output_within m1 fo message None fo
                  (snd (snd (SimSink.output message fo (world m1)))) Hfo Hc) as E2.
    specialize (E2 ltac:(vm_compute; reflexivity)).
    eexists m1, _. split; [exact E1|]. split; [exact Hsz|]. split; [exact Hmax|].
    split; [exact E2|]. split; [|split].
    + apply effects_of_trace. rewrite E2. reflexivity.
    + cbn [this currentFileSize set_tempFileOutput set_currentFileSize].
      exact Ha.
    + vm_compute. reflexivity.
Qed.

Lemma Initialize_does_not_count_existing_bytes_witness :
  exists m1 m2,
    Initialize "/b:bucket" (start (restart_world "left over")) = Returns None m1 /\
    currentFileSize (this m1) = 0 /\
    output "hello" m1 = Returns None m2 /\
    currentFileSize (this m2) = 5 /\
    lookup "/b/event-forwarder" (fs (world m2)) = Some (420, "left overhello").
Proof.
  destruct Initialize_does_not_count_existing_bytes as (_ & H).
  destruct (H "left over" "hello") as (m1 & m2 & E1 & Hsz & _ & E2 & _ & Hsz2 & Hfs).
  - vm_compute. discriminate.
  - exists m1, m2. repeat split; assumption.
Defined.

End Runs.

(** * Further properties of the orchestrator *)

Section Further.

Context {World FileOutput File : Type} {rt : Runtime World FileOutput File}.

Abbreviation Machine := (Machine World FileOutput File).
Abbreviation Effect := (Effect File).
Abbreviation layout := "2006-01-02T15:04:05"%string.

(** Case analysis of a computation on an initialised machine: name the
    fields, then every result of a call on the world the code looks at. *)
Ltac open_machine m H :=
  let o := fresh "o" in
  destruct m as [o ? ?]; destruct o as [[?|] ? [?|] ? ? ? ? ? ? ? ?];
  unfold initialised in H; simpl in H;
  try (exfalso; destruct H; congruence).

Ltac exec := unfold bind, ret, get_this, modify, emit, call, sink, panic; simpl.

Ltac cases :=
  repeat (match goal with
          | |- context [match ?x with _ => _ end] =>
              lazymatch x with
              | context [match _ with _ => _ end] => fail
              | _ => destruct x eqn:?
              end
          end; simpl).

Ltac settle :=
  do 3 eexists; (split; [reflexivity|]); simpl;
  (split; [first [ symmetry; apply app_nil_r
                 | rewrite <- ?app_assoc; reflexivity ]|]).

(** One turn of the loop of an initialised orchestrator: it returns, the
    configuration is kept, the sink writer object stays there. *)
Lemma Go_select_step (m : Machine) ev :
  initialised (this m) ->
  exists l m' t,
    Go_select ev m = Returns l m' /\
    trace m' = trace m ++ t /\
    initialised (this m') /\
    behavior (this m') = behavior (this m) /\
    tempFileDirectory (this m') = tempFileDirectory (this m) /\
    maxFileSize (this m') = maxFileSize (this m) /\
    rollOverDuration (this m') = rollOverDuration (this m) /\
    filter is_close t = [] /\
    match l with
    | Continue =>
        filter is_Send_errorChan t = [] /\
        filesToUpload (this m') = queue_after ev (filesToUpload (this m)) /\
        (existsb is_rollOverFile t = false ->
         spawned t = dispatched_run [ev] (filesToUpload (this m)))
    | Return =>
        exists t0 e, t = t0 ++ [Send_errorChan e] /\
                     filter is_Send_errorChan t0 = [] /\
                     ((exists message, ev = Recv_messages message) \/
                      existsb is_rollOverFile t0 = true)
    end.
Proof.
  intros H. open_machine m H.
  destruct ev; unfold Go_select, output, rollOver; exec; cases; settle;
    unfold initialised; simpl.
  all: repeat split; try congruence; try discriminate.
  all: match goal with
       | |- exists t0 e0, ?l = _ /\ _ =>
           exists (removelast l); eexists;
           (split; [reflexivity|]); (split; [reflexivity|]);
           first [ left; eexists; reflexivity | right; reflexivity ]
       end.
Qed.

Lemma Go_loop_cons (m : Machine) ev evs :
  Go_loop (ev :: evs) m =
  match Go_select ev m with
  | Returns Continue m' => Go_loop evs m'
  | Returns Return m' => deferred m'
  | Panics m' => Panics m'
  end.
Proof.
  cbn [Go_loop]. unfold bind at 1.
  destruct (Go_select ev m) as [[|] m'|m']; reflexivity.
Qed.

(** The deferred calls of an initialised orchestrator. *)
Lemma deferred_close (m : Machine) :
  initialised (this m) ->
  exists m',
    deferred m = Returns Return m' /\
    trace m' = trace m
               ++ [Call_signal_Stop; Call_FileOutput_close; Call_Ticker_Stop] /\
    initialised (this m') /\
    behavior (this m') = behavior (this m) /\
    tempFileDirectory (this m') = tempFileDirectory (this m) /\
    maxFileSize (this m') = maxFileSize (this m) /\
    rollOverDuration (this m') = rollOverDuration (this m).
Proof.
  intros H. open_machine m H. unfold deferred. exec. cases.
  eexists. split; [reflexivity|]. unfold initialised. simpl.
  rewrite <- !app_assoc. repeat split; congruence.
Qed.

(** A run of the loop of an initialised orchestrator. *)
Lemma Go_loop_run (evs : list Event) :
  forall m : Machine,
    initialised (this m) ->
    exists l m' t,
      Go_loop evs m = Returns l m' /\
      trace m' = trace m ++ t /\
      initialised (this m') /\
      behavior (this m') = behavior (this m) /\
      tempFileDirectory (this m') = tempFileDirectory (this m) /\
      maxFileSize (this m') = maxFileSize (this m) /\
      rollOverDuration (this m') = rollOverDuration (this m) /\
      match l with
      | Continue =>
          filter is_Send_errorChan t = [] /\
          filter is_close t = [] /\
          filesToUpload (this m') = queue_run evs (filesToUpload (this m)) /\
          (existsb is_rollOverFile t = false ->
           spawned t = dispatched_run evs (filesToUpload (this m)))
      | Return =>
          exists t0 e,
            t = t0 ++ [Send_errorChan e; Call_signal_Stop;
                       Call_FileOutput_close; Call_Ticker_Stop] /\
            filter is_Send_errorChan t0 = [] /\
            filter is_close t0 = [] /\
            ((exists message, In (Recv_messages message) evs) \/
             existsb is_rollOverFile t0 = true)
      end.
Proof.
  induction evs as [|ev evs IH]; intros m H.
  - exists Continue, m, []. simpl. rewrite app_nil_r.
    split; [reflexivity|]. split; [reflexivity|]. split; [exact H|].
    repeat split; auto.
  - rewrite Go_loop_cons.
    destruct (Go_select_step m ev H)
      as (l1 & m1 & t1 & E1 & Et1 & H1 & Hb1 & Hd1 & Hm1 & Hr1 & Hc1 & Hl1).
    rewrite E1. destruct l1.
    + destruct Hl1 as (He1 & Hq1 & Hs1).
      destruct (IH m1 H1)
        as (l & m' & t & E & Et & H' & Hb & Hd & Hm & Hr & Hl).
      exists l, m', (t1 ++ t). split; [exact E|].
      split; [rewrite Et, Et1, <- !app_assoc; reflexivity|].
      split; [exact H'|].
      repeat (split; [congruence|]).
      destruct l.
      * destruct Hl as (He & Hc & Hq & Hs).
        rewrite !filter_app, He1, He, Hc1, Hc, Hq, Hq1.
        repeat split; auto.
        rewrite existsb_app, spawned_app. intros Hno.
        apply orb_false_iff in Hno as [Hno1 Hno2].
        rewrite (Hs1 Hno1), (Hs Hno2), Hq1. simpl.
        now rewrite app_nil_r.
      * destruct Hl as (t0 & e & -> & He & Hc & Hw).
        exists (t1 ++ t0), e. rewrite !filter_app, He1, He, Hc1, Hc.
        split; [now rewrite <- !app_assoc|]. repeat split; auto.
        destruct Hw as [[message Hin]|Hw].
        -- left. exists message. now right.
        -- right. rewrite existsb_app, Hw. apply orb_true_r.
    + destruct Hl1 as (t0 & e & -> & He & Hw).
      destruct (deferred_close m1 H1) as (m' & E & Et & H' & Hb & Hd & Hm & Hr).
      exists Return, m',
        ((t0 ++ [Send_errorChan e])
         ++ [Call_signal_Stop; Call_FileOutput_close; Call_Ticker_Stop]).
      split; [exact E|].
      split; [rewrite Et, Et1, <- !app_assoc; reflexivity|].
      split; [exact H'|].
      repeat (split; [congruence|]).
      exists t0, e. rewrite <- app_assoc.
      split; [reflexivity|]. split; [exact He|].
      split; [rewrite filter_app in Hc1; now apply app_eq_nil in Hc1|].
      destruct Hw as [[message ->]|Hw]; [left; exists message; now left|now right].
Qed.

Lemma effects_trace {A} (c : M A) (m : Machine) (t : list Effect) :
  trace (final (c m)) = trace m ++ t -> effects c m = t.
Proof.
  unfold effects. intros ->.
  induction (trace m) as [|e l IH]; simpl; auto.
Qed.

(** X5. The loop of an initialised orchestrator never panics: whatever
    events it receives it returns, still initialised, with the backend, the
    buffer directory, [maxFileSize] and [rollOverDuration] it started
    with. *)
Theorem Go_loop_keeps_configuration (evs : list Event) (m : Machine) :
  initialised (this m) ->
  exists l m',
    Go_loop evs m = Returns l m' /\
    initialised (this m') /\
    behavior (this m') = behavior (this m) /\
    tempFileDirectory (this m') = tempFileDirectory (this m) /\
    maxFileSize (this m') = maxFileSize (this m) /\
    rollOverDuration (this m') = rollOverDuration (this m).
Proof.
  intros H.
  destruct (Go_loop_run evs m H) as (l & m' & t & E & _ & H' & Hb & Hd & Hm & Hr & _).
  exists l, m'. repeat split; auto; apply H'.
Qed.

Lemma deferred_never_continues (m : Machine) :
  match deferred m with
  | Returns Continue _ => False
  | _ => True
  end.
Proof. unfold deferred. exec. cases; exact I. Qed.

(** Events after the one that made the loop return are never received. *)
Lemma Go_loop_app (evs more : list Event) (m : Machine) :
  Go_loop (evs ++ more) m =
  match Go_loop evs m with
  | Returns Continue m' => Go_loop more m'
  | r => r
  end.
Proof.
  revert m. induction evs as [|ev evs IH]; intros m.
  - reflexivity.
  - change ((ev :: evs) ++ more) with (ev :: (evs ++ more)).
    rewrite !Go_loop_cons.
    destruct (Go_select ev m) as [[|] m1|m1].
    + apply IH.
    + pose proof (deferred_never_continues m1) as Hd.
      destruct (deferred m1) as [[|] m2|m2]; [contradiction|reflexivity|reflexivity].
    + reflexivity.
Qed.

(** X6. The loop of an initialised orchestrator ends only on an error. While
    it goes on, nothing is sent on the error channel and the sink writer is
    not closed. When it returns, it has sent exactly one error and then run
    the deferred calls, [signal.Stop(hup)], [o.tempFileOutput.close()] and
    [refreshTicker.Stop()], in that order, and these are the last four
    things it did; the sink writer was not closed before; the exit comes
    from a message (an append or a size rollover that failed) or follows a
    rollover; whatever events come after are not processed. *)
Theorem Go_loop_error_exit (evs : list Event) (m : Machine) :
  initialised (this m) ->
  exists l m',
    Go_loop evs m = Returns l m' /\
    match l with
    | Continue =>
        filter is_Send_errorChan (effects (Go_loop evs) m) = [] /\
        filter is_close (effects (Go_loop evs) m) = []
    | Return =>
        (exists t0 e,
           effects (Go_loop evs) m
           = t0 ++ [Send_errorChan e; Call_signal_Stop;
                    Call_FileOutput_close; Call_Ticker_Stop] /\
           filter is_Send_errorChan t0 = [] /\
           filter is_close t0 = [] /\
           ((exists message, In (Recv_messages message) evs) \/
            existsb is_rollOverFile t0 = true)) /\
        forall more, Go_loop (evs ++ more) m = Returns Return m'
    end.
Proof.
  intros H.
  destruct (Go_loop_run evs m H) as (l & m' & t & E & Et & _ & _ & _ & _ & _ & Hl).
  exists l, m'. split; [exact E|].
  rewrite (effects_trace (Go_loop evs) m t) by (rewrite E; exact Et).
  destruct l.
  - destruct Hl as (He & Hc & _). now split.
  - split; [exact Hl|]. intros more. now rewrite Go_loop_app, E.
Qed.

(** X7. While the loop of an initialised orchestrator goes on, the
    pending-upload queue is a function of the events alone: each tick takes
    the front, each failed outcome puts its path at the back; messages,
    rollovers, flushes and successful outcomes leave it alone. If the sink
    writer was never asked to roll over, the goroutines started are exactly
    the fronts taken by the ticks, in that order. *)
Theorem Go_loop_queue (evs : list Event) (m : Machine) :
  initialised (this m) ->
  exists l m',
    Go_loop evs m = Returns l m' /\
    (l = Continue ->
     filesToUpload (this m') = queue_run evs (filesToUpload (this m)) /\
     (existsb is_rollOverFile (effects (Go_loop evs) m) = false ->
      spawned (effects (Go_loop evs) m)
      = dispatched_run evs (filesToUpload (this m)))).
Proof.
  intros H.
  destruct (Go_loop_run evs m H) as (l & m' & t & E & Et & _ & _ & _ & _ & _ & Hl).
  exists l, m'. split; [exact E|]. intros ->.
  rewrite (effects_trace (Go_loop evs) m t) by (rewrite E; exact Et).
  destruct Hl as (_ & _ & Hq & Hs). now split.
Qed.

Lemma queue_run_ticks (n : nat) (q : list string) :
  queue_run (repeat Recv_refreshTicker n) q = skipn n q.
Proof.
  revert q. induction n as [|n IH]; intros q; [reflexivity|].
  cbn [repeat queue_run fold_left queue_after]. fold (queue_run (repeat Recv_refreshTicker n)).
  rewrite IH. destruct q; [now rewrite skipn_nil|reflexivity].
Qed.

Lemma dispatched_run_ticks (n : nat) (q : list string) :
  dispatched_run (repeat Recv_refreshTicker n) q = firstn n q.
Proof.
  revert q. induction n as [|n IH]; intros q; [reflexivity|].
  cbn [repeat dispatched_run queue_after]. rewrite IH.
  destruct q; simpl; [apply firstn_nil|reflexivity].
Qed.

(** X8. Retry. Let a failed outcome for a path reach an initialised
    orchestrator whose queue holds [q], followed by as many ticks as [q] has
    paths, and one more. If the sink writer is not asked to roll over
    meanwhile, the loop goes on, one goroutine is started at each tick, for
    the paths of [q] in order and then for the failed path, and the queue is
    empty afterwards. *)
Theorem failed_upload_is_retried_last (m : Machine) (r : UploadStatus) e :
  initialised (this m) ->
  result r = Some e ->
  let evs := Recv_fileResultChan r
             :: repeat Recv_refreshTicker (S (List.length (filesToUpload (this m)))) in
  existsb is_rollOverFile (effects (Go_loop evs) m) = false ->
  exists m',
    Go_loop evs m = Returns Continue m' /\
    spawned (effects (Go_loop evs) m) = filesToUpload (this m) ++ [fileName r] /\
    filesToUpload (this m') = [].
Proof.
  intros H Hr evs Hno.
  destruct (Go_loop_run evs m H) as (l & m' & t & E & Et & _ & _ & _ & _ & _ & Hl).
  rewrite (effects_trace (Go_loop evs) m t) in * by (rewrite E; exact Et).
  destruct l.
  - destruct Hl as (_ & _ & Hq & Hs). exists m'. split; [exact E|].
    rewrite (Hs Hno), Hq. subst evs.
    set (q := filesToUpload (this m)).
    cbn [dispatched_run queue_run fold_left queue_after]. rewrite Hr.
    fold (queue_run (repeat Recv_refreshTicker (S (List.length q)))).
    rewrite dispatched_run_ticks, queue_run_ticks. cbn [app].
    replace (S (List.length q)) with (List.length (q ++ [fileName r]))
      by (rewrite length_app; simpl; lia).
    now rewrite firstn_all, skipn_all.
  - exfalso. destruct Hl as (t0 & e0 & -> & _ & _ & [[message Hin]|Hw]).
    + subst evs. destruct Hin as [Hin|Hin]; [discriminate|].
      apply repeat_spec in Hin. discriminate.
    + rewrite existsb_app, Hw in Hno. discriminate.
Qed.

(** ** Counters and statistics *)

Lemma failures_nonneg (evs : list Event) : 0 <= failures evs.
Proof.
  induction evs as [|[| |r|] evs IH]; cbn [failures]; try lia.
  destruct (result r); lia.
Qed.

Lemma successes_nonneg (evs : list Event) : 0 <= successes evs.
Proof.
  induction evs as [|[| |r|] evs IH]; cbn [successes]; try lia.
  destruct (result r); lia.
Qed.

Lemma failures_cons (ev : Event) (evs : list Event) :
  failures (ev :: evs) = failures [ev] + failures evs.
Proof.
  destruct ev as [| |r|]; cbn [failures]; try lia. destruct (result r); lia.
Qed.

Lemma successes_cons (ev : Event) (evs : list Event) :
  successes (ev :: evs) = successes [ev] + successes evs.
Proof.
  destruct ev as [| |r|]; cbn [successes]; try lia. destruct (result r); lia.
Qed.

Lemma last_failure_before (evs : list Event) (e : error) :
  last_failure evs (Some e) =
  match last_failure evs None with
  | Some e' => Some e'
  | None => Some e
  end.
Proof.
  induction evs as [|[| |r|] evs IH]; simpl; auto.
  destruct (result r) as [e'|]; auto.
  clear IH. generalize e'. clear e'.
  induction evs as [|[| |r'|] evs IH]; intros e'; simpl; auto.
  - destruct (result r'); auto.
Qed.

Lemma Go_select_counters (m : Machine) ev :
  initialised (this m) ->
  Int64.in_range (uploadErrors (this m) + failures [ev]) ->
  Int64.in_range (successfulUploads (this m) + successes [ev]) ->
  match Go_select ev m with
  | Returns l m' =>
      uploadErrors (this m') = uploadErrors (this m) + failures [ev] /\
      successfulUploads (this m') = successfulUploads (this m) + successes [ev] /\
      lastUploadError (this m') = last_text [ev] (lastUploadError (this m))
  | Panics _ => False
  end.
Proof.
  intros H. open_machine m H. unfold last_text.
  destruct ev; unfold Go_select, output, rollOver; exec; cases;
    intros Hu Hs; repeat split;
    unfold Int64.add; rewrite ?Z.add_0_r in *;
    rewrite ?wrap_small by assumption; auto.
Qed.

Lemma deferred_close_counters (m : Machine) :
  match deferred m with
  | Returns l m' =>
      uploadErrors (this m') = uploadErrors (this m) /\
      successfulUploads (this m') = successfulUploads (this m) /\
      lastUploadError (this m') = lastUploadError (this m) /\
      currentFileSize (this m') = currentFileSize (this m)
  | Panics _ => True
  end.
Proof.
  destruct m as [o w t]. destruct o. unfold deferred. exec. cases; repeat split.
Qed.

Lemma Go_loop_counters (evs : list Event) :
  forall m : Machine,
    initialised (this m) ->
    Int64.in_range (uploadErrors (this m)) ->
    Int64.in_range (uploadErrors (this m) + failures evs) ->
    Int64.in_range (successfulUploads (this m)) ->
    Int64.in_range (successfulUploads (this m) + successes evs) ->
    exists l m',
      Go_loop evs m = Returns l m' /\
      initialised (this m') /\
      (l = Continue ->
       uploadErrors (this m') = uploadErrors (this m) + failures evs /\
       successfulUploads (this m') = successfulUploads (this m) + successes evs /\
       lastUploadError (this m') = last_text evs (lastUploadError (this m))).
Proof.
  induction evs as [|ev evs IH]; intros m H Hu Hu' Hs Hs'.
  - exists Continue, m. unfold last_text. simpl.
    repeat split; auto; try apply H; lia.
  - rewrite failures_cons in Hu'. rewrite successes_cons in Hs'.
    pose proof (failures_nonneg [ev]) as Nf1.
    pose proof (failures_nonneg evs) as Nf.
    pose proof (successes_nonneg [ev]) as Ns1.
    pose proof (successes_nonneg evs) as Ns.
    assert (Hu1 : Int64.in_range (uploadErrors (this m) + failures [ev]))
      by (unfold Int64.in_range in *; lia).
    assert (Hs1 : Int64.in_range (successfulUploads (this m) + successes [ev]))
      by (unfold Int64.in_range in *; lia).
    pose proof (Go_select_counters m ev H Hu1 Hs1) as Hc.
    destruct (Go_select_step m ev H) as (l1 & m1 & t1 & E1 & _ & H1 & _).
    rewrite Go_loop_cons, E1. rewrite E1 in Hc. destruct Hc as (Cu & Cs & Ct).
    destruct l1.
    + destruct (IH m1 H1) as (l & m' & E & H' & Hl);
        try (rewrite ?Cu, ?Cs; unfold Int64.in_range in *; lia).
      exists l, m'. split; [exact E|]. split; [exact H'|].
      intros Hcont. destruct (Hl Hcont) as (Du & Ds & Dt).
      rewrite failures_cons, successes_cons.
      split; [lia|]. split; [lia|].
      rewrite Dt, Ct. unfold last_text.
      destruct ev as [| |r|]; simpl; auto.
      destruct (result r) as [e|]; simpl; auto.
      rewrite last_failure_before. destruct (last_failure evs None); auto.
    + destruct (deferred_close m1 H1) as (m' & E & _ & H' & _).
      exists Return, m'. split; [exact E|]. split; [exact H'|]. discriminate.
Qed.

Section Snapshots.

Context {Snapshot : Type}.
Variable FileOutput_Statistics : FileOutput -> World -> Snapshot.
Variable Behavior_Statistics : BundleBehavior World File -> World -> Snapshot.

(** X9. [Statistics] of an initialised orchestrator returns a snapshot and
    changes nothing. After a run of the loop that is still going on (the
    counters staying below the largest [int64]), [FilesUploaded] has grown by
    the number of successful outcomes received, [UploadErrors] by the number
    of failed ones, and [LastErrorText] is the text of the last failed
    outcome, or what it was if none failed. *)
Theorem Statistics_after_run (evs : list Event) (m : Machine) :
  initialised (this m) ->
  Int64.in_range (uploadErrors (this m)) ->
  Int64.in_range (uploadErrors (this m) + failures evs) ->
  Int64.in_range (successfulUploads (this m)) ->
  Int64.in_range (successfulUploads (this m) + successes evs) ->
  exists l m',
    Go_loop evs m = Returns l m' /\
    exists st,
      Statistics FileOutput_Statistics Behavior_Statistics m' = Returns st m' /\
      (l = Continue ->
       FilesUploaded st = successfulUploads (this m) + successes evs /\
       UploadErrors st = uploadErrors (this m) + failures evs /\
       LastErrorText st = last_text evs (lastUploadError (this m))).
Proof.
  intros H Hu Hu' Hs Hs'.
  destruct (Go_loop_counters evs m H Hu Hu' Hs Hs') as (l & m' & E & H' & Hl).
  exists l, m'. split; [exact E|].
  clear E. open_machine m' H'. unfold Statistics. exec.
  eexists. split; [reflexivity|]. simpl. intros Hc.
  destruct (Hl Hc) as (Du & Ds & Dt). simpl in *. auto.
Qed.

End Snapshots.

(** ** The tracked size *)

Lemma add_len_exact (a bound : Z) (s : string) :
  0 <= a <= bound ->
  2 * bound <= Int64.max ->
  Z.of_nat (String.length s) <= bound ->
  Int64.add a (len s) = a + Z.of_nat (String.length s).
Proof.
  intros Ha Hb Hs. apply add_small; unfold Int64.in_range, Int64.min, Int64.max in *; lia.
Qed.

Lemma Go_select_size (m : Machine) ev :
  initialised (this m) ->
  0 <= currentFileSize (this m) <= maxFileSize (this m) ->
  2 * maxFileSize (this m) <= Int64.max ->
  messages_within (maxFileSize (this m)) [ev] ->
  match Go_select ev m with
  | Returns l m' => 0 <= currentFileSize (this m') <= maxFileSize (this m)
  | Panics _ => False
  end.
Proof.
  intros H. open_machine m H. intros Hc Hm Hw.
  cbn [this maxFileSize currentFileSize] in Hc, Hm, Hw.
  destruct ev as [message| | |]; cbn [messages_within] in Hw;
    unfold Go_select, output, rollOver; exec.
  1:{ destruct Hw as [Hw _].
      pose proof (add_len_exact _ _ message Hc Hm Hw) as Ha.
      assert (H0 : Int64.add 0 (len message) = Z.of_nat (String.length message)).
      { rewrite (add_len_exact 0 maxFileSize0); lia. }
      rewrite Ha.
      cases; rewrite ?H0, ?Ha;
        repeat match goal with
               | E : (_ >? _) = _ |- _ =>
                   rewrite Z.gtb_ltb in E;
                   first [apply Z.ltb_lt in E | apply Z.ltb_ge in E]
               end; lia. }
  all: cases; lia.
Qed.

(** X10. As long as no message is longer than [maxFileSize] (and twice
    [maxFileSize] fits in an [int64]), the tracked size of the live file of
    an initialised orchestrator stays between 0 and [maxFileSize] through
    every run of the loop, whether the loop goes on or returns. *)
Theorem Go_loop_size_bound (evs : list Event) :
  forall m : Machine,
    initialised (this m) ->
    0 <= currentFileSize (this m) <= maxFileSize (this m) ->
    2 * maxFileSize (this m) <= Int64.max ->
    messages_within (maxFileSize (this m)) evs ->
    exists l m',
      Go_loop evs m = Returns l m' /\
      0 <= currentFileSize (this m') <= maxFileSize (this m).
Proof.
  induction evs as [|ev evs IH]; intros m H Hc Hm Hw.
  - exists Continue, m. split; [reflexivity|exact Hc].
  - assert (Hw1 : messages_within (maxFileSize (this m)) [ev])
      by (destruct ev; simpl in *; tauto).
    assert (Hw' : messages_within (maxFileSize (this m)) evs)
      by (destruct ev; simpl in *; tauto).
    pose proof (Go_select_size m ev H Hc Hm Hw1) as Hs.
    destruct (Go_select_step m ev H)
      as (l1 & m1 & t1 & E1 & _ & H1 & _ & _ & Hmax & _).
    rewrite Go_loop_cons, E1. rewrite E1 in Hs. destruct l1.
    + rewrite <- Hmax in *. destruct (IH m1 H1 Hs Hm Hw') as (l & m' & E & Hc').
      exists l, m'. split; [exact E|exact Hc'].
    + destruct (deferred_close m1 H1) as (m' & E & _).
      pose proof (deferred_close_counters m1) as Hk. rewrite E in Hk.
      destruct Hk as (_ & _ & _ & Hk).
      exists Return, m'. split; [exact E|]. now rewrite Hk.
Qed.

(** X11. A message longer than [maxFileSize] always rolls the live file
    over first, even an empty one ([currentFileSize = 0]); when that rollover
    succeeds the message is appended whole to the fresh file, the tracked
    size is its length, above [maxFileSize], and the next [output], whatever
    its message, rolls over first again. *)
Theorem output_oversized_message (m : Machine) fo message fn fo1 w1 :
  tempFileOutput (this m) = Some fo ->
  0 <= currentFileSize (this m) ->
  0 <= maxFileSize (this m) < Z.of_nat (String.length message) ->
  currentFileSize (this m) + 2 * Z.of_nat (String.length message) <= Int64.max ->
  FileOutput_rollOverFile layout fo (world m) = ((fn, None), (fo1, w1)) ->
  exists err m',
    output message m = Returns err m' /\
    effects (output message) m
    = [Call_FileOutput_rollOverFile layout; Go_uploadOne fn;
       Call_FileOutput_output message] /\
    currentFileSize (this m') = Z.of_nat (String.length message) /\
    forall next,
      Z.of_nat (String.length next) <= Z.of_nat (String.length message) ->
      exists rest,
        effects (output next) m' = Call_FileOutput_rollOverFile layout :: rest.
Proof.
  intros Hfo H0 Hlen Hmax Hroll.
  assert (Ha : Int64.add (currentFileSize (this m)) (len message)
               = currentFileSize (this m) + Z.of_nat (String.length message))
    by (apply add_small; unfold Int64.in_range, Int64.min, Int64.max in *; lia).
  assert (Hz : Int64.add 0 (len message) = Z.of_nat (String.length message))
    by (apply add_small; unfold Int64.in_range, Int64.min, Int64.max in *; lia).
  assert (Hc : (Int64.add (currentFileSize (this m)) (len message)
                >? maxFileSize (this m)) = true)
    by (rewrite Ha, Z.gtb_ltb; apply Z.ltb_lt; lia).
  destruct (FileOutput_output message fo1 w1) as [err [fo2 w2]] eqn:Hcall.
  pose proof (output_rolled m fo message fn fo1 w1 err fo2 w2 Hfo Hc Hroll Hcall) as E.
  eexists err, _. split; [exact E|].
  split; [apply effects_trace; rewrite E; reflexivity|].
  split; [simpl; exact Hz|].
  intros next Hnext.
  match goal with |- context [effects _ ?s] => set (m' := s) end.
  pose proof (output_effects m' fo2 next eq_refl) as He.
  assert (Hc2 : (Int64.add (currentFileSize (this m')) (len next)
                 >? maxFileSize (this m')) = true).
  { subst m'. simpl. rewrite Hz, add_small, Z.gtb_ltb;
      [apply Z.ltb_lt; lia| |]; unfold Int64.in_range, Int64.min, Int64.max in *; lia. }
  rewrite Hc2 in He. destruct He as (rest & He & _). now exists rest.
Qed.

(** ** [uploadOne], when the file opens *)

(** X1. When the file opens, [uploadOne] returns and leaves the
    orchestrator as it was. It calls the backend with the open handle, sends
    the backend's outcome (the only outcome it sends), closes the handle, and
    only then, and only if the outcome carries no error, removes the file; a
    failure to remove is logged after the outcome has been sent and changes
    nothing else. *)
Theorem uploadOne_removes_only_on_success (m : Machine) b name f w1 st w2 :
  behavior (this m) = Some b ->
  os_OpenFile name (world m) = (Ok f, w1) ->
  UploadBehavior b name (Some f) w1 = (st, w2) ->
  exists m',
    uploadOne name m = Returns tt m' /\
    this m' = this m /\
    effects (uploadOne name) m
    = [Call_os_OpenFile name; Call_UploadBehavior name (Some f);
       Send_fileResultChan st; Call_File_Close (Some f)]
      ++ match result st with
         | Some _ => []
         | None =>
             Call_os_Remove name
             :: match fst (os_Remove name (File_Close (Some f) w2)) with
                | Some e =>
                    [Log_Printf ("error removing " ++ name ++ ": " ++ Error e)%string]
                | None => []
                end
         end.
Proof.
  intros Hb Hopen Hup. destruct m as [o w t]. simpl in *.
  unfold effects, uploadOne. exec. rewrite Hopen. simpl. rewrite Hb. simpl.
  rewrite Hup. simpl.
  destruct (result st) as [e|]; simpl.
  - eexists. split; [reflexivity|]. split; [reflexivity|]. simpl.
    rewrite <- !app_assoc. apply skipn_length_app.
  - destruct (os_Remove name (File_Close (Some f) w2)) as [[e|] w3]; simpl;
      (eexists; split; [reflexivity|]; split; [reflexivity|]; simpl;
       rewrite <- !app_assoc; apply skipn_length_app).
Qed.

(** ** [Initialize], path by path *)

(** X2. [Initialize] of an orchestrator without a backend returns the error
    [BundledOutput Initialize called without a behavior] and calls nothing
    outside; by then it has already emptied the queue and set the thresholds
    and the buffer directory. The sink writer object is left as it was. *)
Theorem Initialize_without_behavior (m : Machine) conn :
  behavior (this m) = None ->
  exists m',
    Initialize conn m
    = Returns (Some (mkError "BundledOutput Initialize called without a behavior")) m' /\
    world m' = world m /\
    effects (Initialize conn) m = [] /\
    filesToUpload (this m') = [] /\
    maxFileSize (this m') = 10485760 /\
    rollOverDuration (this m') = 300000000000 /\
    tempFileDirectory (this m') = buffer_directory conn /\
    tempFileOutput (this m') = tempFileOutput (this m).
Proof.
  intros Hb. pose proof (Initialize_no_behavior m conn Hb) as E.
  eexists. split; [exact E|]. split; [reflexivity|].
  split; [apply effects_trace; rewrite E; simpl; now rewrite app_nil_r|].
  repeat split.
Qed.

(** X3. [Initialize] stops at the first failure of the backend's
    [Initialize] or of the directory creation: it returns that error, does
    not create the directory after a backend failure, never allocates or
    initialises the sink writer, does not scan, and leaves the queue empty. *)
Theorem Initialize_stops_at_first_failure (m : Machine) conn b r1 w1 r2 w2 :
  behavior (this m) = Some b ->
  Behavior_Initialize b conn (world m) = (r1, w1) ->
  os_MkdirAll (buffer_directory conn) w1 = (r2, w2) ->
  r1 <> None \/ r2 <> None ->
  exists m',
    Initialize conn m
    = Returns (match r1 with Some e => Some e | None => r2 end) m' /\
    effects (Initialize conn) m
    = Call_Behavior_Initialize conn
      :: match r1 with
         | Some _ => []
         | None => [Call_os_MkdirAll (buffer_directory conn)]
         end /\
    tempFileOutput (this m') = tempFileOutput (this m) /\
    filesToUpload (this m') = [].
Proof.
  intros Hb Hinit Hmk Hfail. destruct r1 as [e|].
  - pose proof (Initialize_backend_fails m conn b e w1 Hb Hinit) as E.
    eexists. split; [exact E|].
    split; [apply effects_trace; rewrite E; reflexivity|]. split; reflexivity.
  - destruct r2 as [e|]; [|destruct Hfail; congruence].
    pose proof (Initialize_mkdir_fails m conn b w1 e w2 Hb Hinit Hmk) as E.
    eexists. split; [exact E|].
    split; [apply effects_trace; rewrite E; reflexivity|]. split; reflexivity.
Qed.

(** X4. When the backend, the directory creation and the sink writer all
    succeed, [Initialize] returns nil with the orchestrator initialised:
    [maxFileSize] is 10 MiB, [rollOverDuration] five minutes, the sink
    writer was given the path of [event-forwarder] in the buffer directory,
    and the queue holds exactly the stragglers found after that, whatever it
    held before. The tracked size and the counters are untouched, and no
    upload is started: the stragglers wait for the ticks. *)
Theorem Initialize_success (m : Machine) conn b w1 w2 fo w3 :
  behavior (this m) = Some b ->
  Behavior_Initialize b conn (world m) = (None, w1) ->
  os_MkdirAll (buffer_directory conn) w1 = (None, w2) ->
  FileOutput_Initialize (filepath_Join (buffer_directory conn) "event-forwarder")
    FileOutput_zero w2 = (None, (fo, w3)) ->
  exists m',
    Initialize conn m = Returns None m' /\
    initialised (this m') /\
    maxFileSize (this m') = 10 * 1024 * 1024 /\
    rollOverDuration (this m') = 5 * time_Minute /\
    tempFileDirectory (this m') = buffer_directory conn /\
    filesToUpload (this m')
    = stragglers (buffer_directory conn) (listing (buffer_directory conn) w3) /\
    currentFileSize (this m') = currentFileSize (this m) /\
    uploadErrors (this m') = uploadErrors (this m) /\
    successfulUploads (this m') = successfulUploads (this m) /\
    spawned (effects (Initialize conn) m) = [].
Proof.
  intros Hb Hinit Hmk Hsink.
  destruct (Initialize_scans m conn b w1 w2 None fo w3 Hb Hinit Hmk Hsink)
    as (m' & t & E & Ethis & Et & _ & Hs & _).
  exists m'. split; [exact E|]. rewrite Ethis.
  unfold initialised. simpl. rewrite Hb.
  repeat split; try discriminate.
  rewrite (effects_trace (Initialize conn) m _) by (rewrite E; exact Et).
  simpl. exact Hs.
Qed.

(** ** [Key] and [String] *)

Lemma Initialize_keeps_behavior (m : Machine) conn :
  match Initialize conn m with
  | Returns _ m' => behavior (this m') = behavior (this m)
  | Panics _ => False
  end.
Proof.
  destruct m as [o w t]. destruct o.
  unfold Initialize, queueStragglers. exec. cases; reflexivity.
Qed.

(** X12. [Key] and [String] only read: they return with the machine as it
    was. [Key] is the backend's key, a colon and the buffer directory;
    [String] is the backend's description, a space and the key. After
    [Initialize] with a connection string whose first colon follows
    [before], the key therefore ends with [before], whether [Initialize]
    succeeded or not. *)
Theorem Key_and_String_after_Initialize (m : Machine) b before after :
  behavior (this m) = Some b ->
  has_byte ":" before = false ->
  exists err m',
    Initialize (before ++ ":" ++ after) m = Returns err m' /\
    Key m' = Returns (Behavior_Key b (world m') ++ ":" ++ before)%string m' /\
    String_ m'
    = Returns (Behavior_String b (world m') ++ " "
               ++ Behavior_Key b (world m') ++ ":" ++ before)%string m'.
Proof.
  intros Hb Hcolon.
  destruct (Initialize_run m (before ++ ":" ++ after)%string)
    as (err & m' & t & E & _ & Hd & _).
  assert (Hb' : behavior (this m') = Some b).
  { pose proof (Initialize_keeps_behavior m (before ++ ":" ++ after)%string) as Hk.
    rewrite E in Hk. congruence. }
  rewrite buffer_directory_prefix in Hd by assumption.
  exists err, m'. split; [exact E|].
  destruct m' as [o w tr]. simpl in *. unfold String_, Key. exec.
  rewrite Hb'. simpl. rewrite ?Hb', ?Hd. simpl. rewrite ?Hb', ?Hd.
  split; reflexivity.
Qed.

(** ** An open failure, seen from the loop *)

(** Receiving an upload outcome never ends the loop. *)
Lemma Go_select_outcome_continues (m : Machine) (r : UploadStatus) :
  exists m', Go_select (Recv_fileResultChan r) m = Returns Continue m'.
Proof.
  unfold Go_select. exec. cases; eexists; reflexivity.
Qed.

(** X13. Let [uploadOne] fail to open its file and the backend, called with
    the nil handle, report an error too. When the loop of an initialised
    orchestrator receives the outcomes that invocation sent, it counts two
    upload errors and puts two paths at the back of the queue, the file's
    and the one the backend named: one failed upload is queued for retry
    twice. *)
Theorem open_failure_is_requeued_twice
    (up m : Machine) b name e w1 st w2 e2 :
  behavior (this up) = Some b ->
  os_OpenFile name (world up) = (Err e, w1) ->
  UploadBehavior b name None w1 = (st, w2) ->
  result st = Some e2 ->
  initialised (this m) ->
  Int64.in_range (uploadErrors (this m)) ->
  Int64.in_range (uploadErrors (this m) + 2) ->
  Int64.in_range (successfulUploads (this m)) ->
  let outcomes := reported (effects (uploadOne name) up) in
  exists m',
    Go_loop (map Recv_fileResultChan outcomes) m = Returns Continue m' /\
    uploadErrors (this m') = uploadErrors (this m) + 2 /\
    filesToUpload (this m') = filesToUpload (this m) ++ [name; fileName st].
Proof.
  intros Hb Hopen Hup Hres H Hu Hu2 Hs outcomes.
  assert (Hout : outcomes = [mkUploadStatus name (Some e); st]).
  { subst outcomes.
    destruct (uploadOne_trace up b name (Err e) w1 st w2 Hb Hopen Hup)
      as (u & m1 & tail & E & Et & Hrep & _).
    rewrite (effects_trace (uploadOne name) up _) by (rewrite E; exact Et).
    simpl. now rewrite Hrep. }
  rewrite Hout. cbn [map].
  set (evs := [Recv_fileResultChan (mkUploadStatus name (Some e));
               Recv_fileResultChan st]).
  assert (Hf : failures evs = 2) by (subst evs; cbn [failures result]; now rewrite Hres).
  assert (Hsucc : successes evs = 0)
    by (subst evs; cbn [successes result]; now rewrite Hres).
  destruct (Go_loop_run evs m H) as (l & m' & t & E & _ & _ & _ & _ & _ & _ & Hl).
  destruct (Go_loop_counters evs m H Hu) as (l' & m'' & E' & _ & Hc);
    rewrite ?Hf, ?Hsucc, ?Z.add_0_r; auto.
  rewrite E in E'. injection E' as <- <-.
  destruct l.
  - destruct Hl as (_ & _ & Hq & _). destruct (Hc eq_refl) as (Cu & _).
    exists m'. split; [exact E|]. split; [now rewrite Cu, Hf|].
    rewrite Hq. subst evs. cbn [queue_run fold_left queue_after result fileName].
    rewrite Hres. now rewrite <- app_assoc.
  - exfalso. destruct Hl as (t0 & e0 & -> & _ & _ & [[message Hin]|Hw]).
    + subst evs. destruct Hin as [Hin|[Hin|[]]]; discriminate.
    + subst evs. rewrite Go_loop_cons in E.
      destruct (Go_select_outcome_continues m (mkUploadStatus name (Some e)))
        as (m1 & E1).
      rewrite E1 in E. cbv beta iota in E. rewrite Go_loop_cons in E.
      destruct (Go_select_outcome_continues m1 st) as (m2 & E2).
      rewrite E2 in E. cbn [Go_loop] in E. discriminate E.
Qed.

End Further.

(** * The further properties, run *)

Section FurtherRuns.

Import Sim Scenario.

Local Open Scope string_scope.

Abbreviation layout := "2006-01-02T15:04:05".

Lemma idle_initialised : initialised (this idle).
Proof. vm_compute. split; discriminate. Defined.

Lemma queued_initialised : initialised (this queued).
Proof. vm_compute. split; discriminate. Defined.

Lemma uploadOne_removes_only_on_success_witness :
  exists m',
    uploadOne "/b/event-forwarder" idle = Returns tt m' /\
    this m' = this idle /\
    effects (uploadOne "/b/event-forwarder") idle
    = [Call_os_OpenFile "/b/event-forwarder";
       Call_UploadBehavior "/b/event-forwarder" (Some "/b/event-forwarder");
       Send_fileResultChan (mkUploadStatus "/b/event-forwarder" None);
       Call_File_Close (Some "/b/event-forwarder");
       Call_os_Remove "/b/event-forwarder"].
Proof.
  destruct (uploadOne_removes_only_on_success idle backend "/b/event-forwarder"
              "/b/event-forwarder" (world idle)
              (mkUploadStatus "/b/event-forwarder" None)
              (snd (Upload "/b/event-forwarder" (Some "/b/event-forwarder")
                      (world idle))))
    as (m' & E & Hthis & Ht).
  - vm_compute. reflexivity.
  - vm_compute. reflexivity.
  - vm_compute. reflexivity.
  - exists m'. split; [exact E|]. split; [exact Hthis|]. rewrite Ht. reflexivity.
Defined.

Lemma Initialize_without_behavior_witness :
  exists m',
    Initialize "/b:bucket" bare
    = Returns (Some (mkError "BundledOutput Initialize called without a behavior")) m' /\
    effects (Initialize "/b:bucket") bare = [] /\
    tempFileDirectory (this m') = "/b".
Proof.
  destruct (Initialize_without_behavior bare "/b:bucket")
    as (m' & E & _ & Ht & _ & _ & _ & Hd & _).
  - reflexivity.
  - exists m'. split; [exact E|]. split; [exact Ht|]. rewrite Hd. reflexivity.
Defined.

Lemma Initialize_stops_at_first_failure_witness :
  exists m',
    Initialize ":bucket" (start empty_b)
    = Returns (Some (mkError "mkdir : no such file or directory")) m' /\
    effects (Initialize ":bucket") (start empty_b)
    = [Call_Behavior_Initialize ":bucket"; Call_os_MkdirAll ""] /\
    tempFileOutput (this m') = None /\
    filesToUpload (this m') = [].
Proof.
  destruct (Initialize_stops_at_first_failure (start empty_b) ":bucket" backend
              None (snd (Behavior_Initialize backend ":bucket" empty_b))
              (Some (mkError "mkdir : no such file or directory"))
              (snd (Behavior_Initialize backend ":bucket" empty_b)))
    as (m' & E & Ht & Hfo & Hq).
  - vm_compute. reflexivity.
  - vm_compute. reflexivity.
  - vm_compute. reflexivity.
  - right. discriminate.
  - exists m'. split; [exact E|]. split; [exact Ht|]. split; [exact Hfo|exact Hq].
Defined.

Lemma Initialize_success_witness :
  exists m',
    Initialize "/b:bucket" (start (restart_world "old")) = Returns None m' /\
    initialised (this m') /\
    filesToUpload (this m') = ["/b/event-forwarder.17"; "/b/event-forwarder.lnk"] /\
    spawned (effects (Initialize "/b:bucket") (start (restart_world "old"))) = [].
Proof.
  destruct (Initialize_success (start (restart_world "old")) "/b:bucket" backend
              (snd (Behavior_Initialize backend "/b:bucket" (restart_world "old")))
              (snd (Behavior_Initialize backend "/b:bucket" (restart_world "old")))
              {| SimSink.outputFileName := "/b/event-forwarder";
                 SimSink.rolledOverAt := 5000 * time_Second |}
              (snd (Behavior_Initialize backend "/b:bucket" (restart_world "old"))))
    as (m' & E & Hi & _ & _ & _ & Hq & _ & _ & _ & Hs).
  - vm_compute. reflexivity.
  - vm_compute. reflexivity.
  - vm_compute. reflexivity.
  - vm_compute. reflexivity.
  - exists m'. split; [exact E|]. split; [exact Hi|]. split; [|exact Hs].
    rewrite Hq. reflexivity.
Defined.

Lemma Go_loop_keeps_configuration_witness :
  exists l m',
    Go_loop mixed queued = Returns l m' /\
    initialised (this m') /\
    behavior (this m') = behavior (this queued) /\
    tempFileDirectory (this m') = tempFileDirectory (this queued) /\
    maxFileSize (this m') = maxFileSize (this queued) /\
    rollOverDuration (this m') = rollOverDuration (this queued).
Proof. exact (Go_loop_keeps_configuration mixed queued queued_initialised). Defined.

Lemma Go_loop_error_exit_witness :
  exists m',
    Go_loop [Recv_refreshTicker; Recv_hup] orphaned = Returns Return m' /\
    forall more,
      Go_loop ([Recv_refreshTicker; Recv_hup] ++ more) orphaned = Returns Return m'.
Proof.
  destruct (Go_loop_error_exit [Recv_refreshTicker; Recv_hup] orphaned)
    as (l & m' & E & Hl).
  - vm_compute. split; discriminate.
  - assert (Hret : l = Return).
    { assert (Hc : exists m0, Go_loop [Recv_refreshTicker; Recv_hup] orphaned
                              = Returns Return m0)
        by (eexists; vm_compute; reflexivity).
      destruct Hc as (m0 & Hc). rewrite Hc in E. now injection E. }
    subst l. exists m'. split; [exact E|]. apply Hl.
Defined.

Lemma Go_loop_queue_witness :
  exists l m',
    Go_loop mixed queued = Returns l m' /\
    (l = Continue ->
     filesToUpload (this m') = ["/b/two"; "/b/three"] /\
     (existsb is_rollOverFile (effects (Go_loop mixed) queued) = false ->
      spawned (effects (Go_loop mixed) queued) = ["/b/one"])).
Proof. exact (Go_loop_queue mixed queued queued_initialised). Defined.

Lemma failed_upload_is_retried_last_witness :
  exists m',
    Go_loop (Recv_fileResultChan (mkUploadStatus "/b/three" (Some (mkError "refused")))
             :: repeat Recv_refreshTicker 3) queued
    = Returns Continue m' /\
    spawned (effects (Go_loop (Recv_fileResultChan
                                 (mkUploadStatus "/b/three" (Some (mkError "refused")))
                               :: repeat Recv_refreshTicker 3)) queued)
    = ["/b/one"; "/b/two"; "/b/three"] /\
    filesToUpload (this m') = [].
Proof.
  apply (failed_upload_is_retried_last queued
           (mkUploadStatus "/b/three" (Some (mkError "refused")))
           (mkError "refused") queued_initialised eq_refl).
  vm_compute. reflexivity.
Defined.

Lemma Statistics_after_run_witness :
  exists l m',
    Go_loop mixed queued = Returns l m' /\
    exists st,
      Statistics (fun fo _ => SimSink.rolledOverAt fo)
                 (fun _ w => Z.of_nat (List.length (remote w))) m'
      = Returns st m' /\
      (l = Continue ->
       FilesUploaded st = 1 /\ UploadErrors st = 1 /\ LastErrorText st = "refused").
Proof.
  apply (Statistics_after_run (fun fo _ => SimSink.rolledOverAt fo)
           (fun _ w => Z.of_nat (List.length (remote w))) mixed queued
           queued_initialised);
    vm_compute; split; discriminate.
Defined.

Lemma Go_loop_size_bound_witness :
  exists l m',
    Go_loop mixed queued = Returns l m' /\
    0 <= currentFileSize (this m') <= maxFileSize (this queued).
Proof.
  apply (Go_loop_size_bound mixed queued queued_initialised).
  - vm_compute. split; discriminate.
  - vm_compute. discriminate.
  - vm_compute. repeat split; discriminate.
Defined.

Lemma output_oversized_message_witness :
  exists err m',
    output big small = Returns err m' /\
    effects (output big) small
    = [Call_FileOutput_rollOverFile layout;
       Go_uploadOne "/b/event-forwarder.1000";
       Call_FileOutput_output big] /\
    currentFileSize (this m') = 120.
Proof.
  destruct (output_oversized_message small
              {| SimSink.outputFileName := "/b/event-forwarder";
                 SimSink.rolledOverAt := 1000 * time_Second |}
              big "/b/event-forwarder.1000"
              {| SimSink.outputFileName := "/b/event-forwarder";
                 SimSink.rolledOverAt := 1000 * time_Second |}
              (snd (snd (SimSink.rollOverFile layout
                           {| SimSink.outputFileName := "/b/event-forwarder";
                              SimSink.rolledOverAt := 1000 * time_Second |}
                           (world small)))))
    as (err & m' & E & Ht & Hsz & _).
  - vm_compute. reflexivity.
  - vm_compute. discriminate.
  - vm_compute. split; [discriminate|reflexivity].
  - vm_compute. discriminate.
  - vm_compute. reflexivity.
  - exists err, m'. split; [exact E|]. split; [exact Ht|]. rewrite Hsz. reflexivity.
Defined.

Lemma Key_and_String_after_Initialize_witness :
  exists err m',
    Initialize "/b:bucket" (start empty_b) = Returns err m' /\
    Key m' = Returns "sim:/b" m' /\
    String_ m' = Returns "sim backend sim:/b" m'.
Proof.
  apply (Key_and_String_after_Initialize (start empty_b) backend "/b" "bucket");
    reflexivity.
Defined.

Lemma open_failure_is_requeued_twice_witness :
  exists m',
    Go_loop (map Recv_fileResultChan (reported (effects (uploadOne "/b/gone") idle)))
      queued
    = Returns Continue m' /\
    uploadErrors (this m') = 2 /\
    filesToUpload (this m') = ["/b/one"; "/b/two"; "/b/gone"; "/b/gone"].
Proof.
  apply (open_failure_is_requeued_twice idle queued backend "/b/gone"
           (mkError "open /b/gone: no such file or directory") (world idle)
           (mkUploadStatus "/b/gone" (Some (mkError "invalid argument")))
           (world idle) (mkError "invalid argument")).
  - vm_compute. reflexivity.
  - vm_compute. reflexivity.
  - vm_compute. reflexivity.
  - reflexivity.
  - exact queued_initialised.
  - vm_compute. split; discriminate.
  - vm_compute. split; discriminate.
  - vm_compute. split; discriminate.
Defined.

End FurtherRuns.
